(** * A shallow embedding of the v1 torch-engine (src/v1/torch-engine.py)

    The engine is a scalar reverse-mode autodiff: every operator computes
    its value eagerly and appends one record to a global tape; [grad]
    replays the tape backwards.  The module-level globals [id_counter]
    and [Tape_list] are threaded explicitly as a [session]; Python
    exceptions and the lines written by [print] are part of the result
    of every computation. *)

From Stdlib Require Import List String Ascii Bool Arith ZArith Lia.
From Stdlib Require Import PrimFloat Floats SpecFloat.
From Stdlib Require Import DecimalString DecimalNat.
Import ListNotations.

Local Open Scope list_scope.

(** ** Scalars

    A node's [value] is an IEEE-754 double.  Literals written in the
    program are Python floats; whatever comes out of numpy ([np.sin],
    [np.cos], [np.log]) is an [np.float64], and arithmetic with at least
    one [np.float64] operand yields an [np.float64].  The two kinds carry
    the same numbers and differ in one place the engine reaches: dividing
    by a Python float zero raises, dividing by an [np.float64] zero
    returns an infinity (or NaN). *)

Inductive scalar : Type :=
| PyFloat (f : float)
| NpFloat (f : float).

Definition num (x : scalar) : float :=
  match x with PyFloat f | NpFloat f => f end.

Definition arith (op : float -> float -> float) (a b : scalar) : scalar :=
  match a, b with
  | PyFloat x, PyFloat y => PyFloat (op x y)
  | _, _ => NpFloat (op (num a) (num b))
  end.

Definition py_add : scalar -> scalar -> scalar := arith PrimFloat.add.
Definition py_sub : scalar -> scalar -> scalar := arith PrimFloat.sub.
Definition py_mul : scalar -> scalar -> scalar := arith PrimFloat.mul.

(** What a universal function of numpy does to a scalar: the result is
    always an [np.float64]. *)
Definition ufunc (f : float -> float) (a : scalar) : scalar :=
  NpFloat (f (num a)).

(** ** Exceptions *)

Inductive exn : Type :=
| KeyError (key : string)
| AttributeError
| ValueError
| ZeroDivisionError.

(** [1 / x] with the integer literal [1] on the left. *)
Definition py_inv (x : scalar) : exn + scalar :=
  match x with
  | PyFloat f =>
      if PrimFloat.eqb f 0%float then inl ZeroDivisionError
      else inr (PyFloat (1 / f)%float)
  | NpFloat f => inr (NpFloat (1 / f)%float)
  end.

(** ** Data model *)

(** class Variable: a value and a name (its identity). *)
Record Var : Type := mkVar { value : scalar; name : string }.

(** What an operator may be handed: a Variable, or a raw number. *)
Inductive operand : Type :=
| Node (v : Var)
| Literal (x : scalar).

(** The closures stored in a tape record, one constructor per nested
    [def]; the arguments are the variables each closure captures. *)
Inductive backward : Type :=
| add_backward (self other : Var)
| mul_backward (self other : Var)
| sub_backward (self other : Var)
| sin_backward (self : Var)
| log_backward (self : Var).

(** dataclass Tape. *)
Record Tape : Type := mkTape {
  inputs : list string;
  outputs : list string;
  propagate : backward
}.

(** The two module-level globals. *)
Record session : Type := mkSession {
  id_counter : nat;
  Tape_list : list Tape
}.

Definition fresh_session : session :=
  {| id_counter := 0; Tape_list := [] |}.

(** A line written to standard output. *)
Inductive line : Type :=
| print_tape (t : Tape)
| print_grad (l : string) (key : string) (v : scalar).

(** What [grad] hands back to its caller. *)
Inductive pyobject : Type :=
| PyNone
| PyDict (items : list (string * Var)).

(** ** The monad of engine computations: session state, exceptions and
    printed output.  An exception keeps the session reached so far, as
    the globals of a Python module do. *)

Inductive result (A : Type) : Type :=
| Ok (a : A) (s : session) (out : list line)
| Raise (e : exn) (s : session) (out : list line).

Arguments Ok {A} a s out.
Arguments Raise {A} e s out.

Definition M (A : Type) : Type := session -> result A.

Definition final {A} (r : result A) : session :=
  match r with Ok _ s _ | Raise _ s _ => s end.

Definition printed {A} (r : result A) : list line :=
  match r with Ok _ _ out | Raise _ _ out => out end.

Definition prepend {A} (o : list line) (r : result A) : result A :=
  match r with
  | Ok a s out => Ok a s (o ++ out)
  | Raise e s out => Raise e s (o ++ out)
  end.

Definition ret {A} (a : A) : M A := fun s => Ok a s [].

Definition raise {A} (e : exn) : M A := fun s => Raise e s [].

Definition bind {A B} (m : M A) (f : A -> M B) : M B :=
  fun s =>
    match m s with
    | Ok a s1 o1 => prepend o1 (f a s1)
    | Raise e s1 o1 => Raise e s1 o1
    end.

Notation "x <- m ;; k" := (bind m (fun x => k))
  (at level 61, m at next level, right associativity).
Notation "m ;;; k" := (bind m (fun _ => k))
  (at level 61, right associativity).

Definition print (l : line) : M unit := fun s => Ok tt s [l].

Definition append (t : Tape) : M unit :=
  fun s => Ok tt {| id_counter := id_counter s;
                    Tape_list := Tape_list s ++ [t] |} [].

(** ** Identities *)

Definition str (n : nat) : string := NilEmpty.string_of_uint (Nat.to_uint n).

(** The f-string [f"v_{id_counter}"]. *)
Definition v_ (n : nat) : string := String.append "v_" (str n).

Arguments v_ : simpl never.

(** def id_generator *)
Definition id_generator : M string :=
  fun s =>
    let c := S (id_counter s) in
    Ok (v_ c)
       {| id_counter := c; Tape_list := Tape_list s |} [].

(** Variable.__init__: [self.name = name or id_generator()]; [None] and
    the empty string are both falsy. *)
Definition Variable_init (v : scalar) (name : option string) : M Var :=
  match name with
  | Some n =>
      if String.eqb n EmptyString
      then n' <- id_generator;; ret (mkVar v n')
      else ret (mkVar v n)
  | None => n' <- id_generator;; ret (mkVar v n')
  end.

(** Variable.verbose_init *)
Definition verbose_init (v : scalar) (name : option string) : M Var :=
  Variable_init v name.

(** def reset_tape *)
Definition reset_tape : M unit :=
  fun _ => Ok tt {| id_counter := 0; Tape_list := [] |} [].

(** ** Operators *)

(** The first attribute access on an operand ([self.value],
    [other.value]): a raw number has no such attribute. *)
Definition the_variable (o : operand) : M Var :=
  match o with
  | Node v => ret v
  | Literal _ => raise AttributeError
  end.

(** def add_op *)
Definition add_op (self other : operand) : M Var :=
  a <- the_variable self;;
  b <- the_variable other;;
  x <- verbose_init (py_add (value a) (value b)) None;;
  append (mkTape [name a; name b] [name x] (add_backward a b));;;
  ret x.

(** def mul_op *)
Definition mul_op (self other : operand) : M Var :=
  a <- the_variable self;;
  b <- the_variable other;;
  x <- verbose_init (py_mul (value a) (value b)) None;;
  append (mkTape [name a; name b] [name x] (mul_backward a b));;;
  ret x.

(** def sub_op *)
Definition sub_op (self other : operand) : M Var :=
  a <- the_variable self;;
  b <- the_variable other;;
  x <- verbose_init (py_sub (value a) (value b)) None;;
  append (mkTape [name a; name b] [name x] (sub_backward a b));;;
  ret x.

(** [dl_dx, = dl_doutputs] *)
Definition unpack1 (l : list Var) : M Var :=
  match l with
  | [x] => ret x
  | _ => raise ValueError
  end.

(** ** The gradient map: a Python dict, which keeps insertion order. *)

Definition dict : Type := list (string * Var).

Fixpoint dict_get (k : string) (d : dict) : option Var :=
  match d with
  | [] => None
  | (k', v) :: d' => if String.eqb k k' then Some v else dict_get k d'
  end.

(** [d[k] = v]: overwrite in place, or insert at the end. *)
Fixpoint dict_set (k : string) (v : Var) (d : dict) : dict :=
  match d with
  | [] => [(k, v)]
  | (k', v') :: d' =>
      if String.eqb k k' then (k', v) :: d'
      else (k', v') :: dict_set k v d'
  end.

(** [[dl_d[output] for output in tabe.outputs]] *)
Fixpoint grad_outputs (outs : list string) (dl_d : dict) : M (list Var) :=
  match outs with
  | [] => ret []
  | output :: rest =>
      match dict_get output dl_d with
      | Some g => gs <- grad_outputs rest dl_d;; ret (g :: gs)
      | None => raise (KeyError output)
      end
  end.

(** The inner loop of [grad]:
    [for input, grad in zip(tabe.inputs, grad_inputs)].  [Var] has no
    [__iadd__], so [dl_d[input] += grad] is
    [dl_d[input] = dl_d[input] + grad], an application of [add_op]. *)
Fixpoint accumulate (pairs : list (string * Var)) (dl_d : dict) : M dict :=
  match pairs with
  | [] => ret dl_d
  | (input, g) :: rest =>
      match dict_get input dl_d with
      | Some cur =>
          sum <- add_op (Node cur) (Node g);;
          accumulate rest (dict_set input sum dl_d)
      | None => accumulate rest (dict_set input g dl_d)
      end
  end.

(** [for name, value in dl_d.items(): print(...)] *)
Fixpoint print_items (l : string) (items : dict) : M unit :=
  match items with
  | [] => ret tt
  | (key, v) :: rest => print (print_grad l key (value v));;; print_items l rest
  end.

Section Engine.

(** The numeric backend: numpy's sine, cosine and natural logarithm on
    doubles. *)
Variables np_sin np_cos np_log : float -> float.

(** def sin_op *)
Definition sin_op (self : operand) : M Var :=
  a <- the_variable self;;
  x <- verbose_init (ufunc np_sin (value a)) None;;
  append (mkTape [name a] [name x] (sin_backward a));;;
  ret x.

(** def log_op *)
Definition log_op (self : operand) : M Var :=
  a <- the_variable self;;
  x <- verbose_init (ufunc np_log (value a)) None;;
  append (mkTape [name a] [name x] (log_backward a));;;
  ret x.

(** Calling a record's [propagate]: the body of each nested [def].
    [*] on two Variables is [Variable.__mul__], that is [mul_op]. *)
Definition call (b : backward) (dl_doutputs : list Var) : M (list Var) :=
  match b with
  | add_backward self other =>
      dl_dx <- unpack1 dl_doutputs;;
      dx_dself <- Variable_init (PyFloat 1) None;;
      dx_dother <- Variable_init (PyFloat 1) None;;
      dl_dself <- mul_op (Node dl_dx) (Node dx_dself);;
      dl_dother <- mul_op (Node dl_dx) (Node dx_dother);;
      ret [dl_dself; dl_dother]
  | mul_backward self other =>
      dl_dx <- unpack1 dl_doutputs;;
      let dx_dself := other in
      let dx_dother := self in
      dl_dself <- mul_op (Node dl_dx) (Node dx_dself);;
      dl_dother <- mul_op (Node dl_dx) (Node dx_dother);;
      ret [dl_dself; dl_dother]
  | sub_backward self other =>
      dl_dx <- unpack1 dl_doutputs;;
      dx_dself <- Variable_init (PyFloat 1) None;;
      dx_dother <- Variable_init (PyFloat (-1)) None;;
      dl_dself <- mul_op (Node dl_dx) (Node dx_dself);;
      dl_dother <- mul_op (Node dl_dx) (Node dx_dother);;
      ret [dl_dself; dl_dother]
  | sin_backward self =>
      dl_dx <- unpack1 dl_doutputs;;
      dx_dself <- Variable_init (ufunc np_cos (value self)) None;;
      dl_dself <- mul_op (Node dl_dx) (Node dx_dself);;
      ret [dl_dself]
  | log_backward self =>
      dl_dx <- unpack1 dl_doutputs;;
      match py_inv (value self) with
      | inl e => raise e
      | inr q =>
          dx_dself <- Variable_init q None;;
          dl_dself <- mul_op (Node dl_dx) (Node dx_dself);;
          ret [dl_dself]
      end
  end.

(** The body of the outer loop of [grad] up to the call of [zip]: the
    (input id, gradient) pairs one record hands to the accumulation. *)
Definition contributions (tabe : Tape) (dl_d : dict) : M (list (string * Var)) :=
  print (print_tape tabe);;;
  grad_outputs' <- grad_outputs (outputs tabe) dl_d;;
  grad_inputs <- call (propagate tabe) grad_outputs';;
  ret (combine (inputs tabe) grad_inputs).

(** One iteration of the outer loop of [grad]. *)
Definition visit (tabe : Tape) (dl_d : dict) : M dict :=
  pairs <- contributions tabe dl_d;;
  accumulate pairs dl_d.

(** [for tabe in reversed(Tape_list)]: a list reverse iterator holds the
    list object and an index that starts at [len - 1]; every step reads
    the list as it is then, yields the item at the index when the index is
    within the list, and decrements.  [remaining] is the index plus one. *)
Fixpoint reversed_loop (remaining : nat) (dl_d : dict) : M dict :=
  match remaining with
  | 0 => ret dl_d
  | S index =>
      fun s =>
        match nth_error (Tape_list s) index with
        | Some tabe => (dl_d' <- visit tabe dl_d;; reversed_loop index dl_d') s
        | None => ret dl_d s
        end
  end.

(** The first half of [grad]: the seed and the reverse pass, which build
    the local dict [dl_d]. *)
Definition grad_dl_d (l : Var) : M dict :=
  seed <- Variable_init (PyFloat 1) None;;
  let dl_d := dict_set (name l) seed [] in
  fun s => reversed_loop (List.length (Tape_list s)) dl_d s.

(** def grad *)
Definition grad (l : Var) (results : list Var) : M pyobject :=
  dl_d <- grad_dl_d l;;
  print_items (name l) dl_d;;;
  ret PyNone.

End Engine.

(** * Vocabulary of the properties *)

(** ** The same pass over a list of records fixed in advance

    [for_each] is the loop a reader has in mind: one visit per record of
    a given list.  [reversed_loop] above reads the live tape instead;
    [reversed_loop_snapshot] below shows that the two agree on the
    reversal of the tape as it is when the pass starts. *)

Section Pass.

Variable np_cos : float -> float.

Fixpoint for_each (ts : list Tape) (dl_d : dict) : M dict :=
  match ts with
  | [] => ret dl_d
  | tabe :: rest => dl_d' <- visit np_cos tabe dl_d;; for_each rest dl_d'
  end.

(** Every (input id, gradient) pair handed to the accumulation during a
    pass over [ts], in the order in which it is handed over. *)
Fixpoint all_contributions (ts : list Tape) (dl_d : dict)
  : M (list (string * Var)) :=
  match ts with
  | [] => ret []
  | tabe :: rest =>
      pairs <- contributions np_cos tabe dl_d;;
      dl_d' <- accumulate pairs dl_d;;
      later <- all_contributions rest dl_d';;
      ret (pairs ++ later)
  end.

(** A backward rule called on the output gradient [dL]: it returns nodes
    carrying the numbers [gs]. *)
Definition propagates (bw : backward) (dL : Var) (s : session)
    (gs : list float) : Prop :=
  exists r s',
    call np_cos bw [dL] s = Ok r s' [] /\
    map (fun g => num (value g)) r = gs.

(** The expression of scenario 2: [z = x + x] at [x = 3.0], and the
    entry of [x] in the gradient map of [z]. *)
Definition diamond : M (option scalar) :=
  x <- Variable_init (PyFloat 3) None;;
  z <- add_op (Node x) (Node x);;
  dl_d <- grad_dl_d np_cos z;;
  ret (option_map value (dict_get (name x) dl_d)).

End Pass.

(** A forward call on tracked operands: it returns a node carrying the
    number [v] and has appended the record of that node, with input ids
    [ins] and backward rule [bw]. *)
Definition forward (op : M Var) (s : session) (v : float)
    (ins : list string) (bw : backward) : Prop :=
  exists x s',
    op s = Ok x s' [] /\
    num (value x) = v /\
    Tape_list s' = Tape_list s ++ [mkTape ins [name x] bw].

(** The gradients delivered to node [n], in order. *)
Definition delivered_to (n : string) (pairs : list (string * Var)) : list scalar :=
  map (fun p => value (snd p)) (filter (fun p => String.eqb n (fst p)) pairs).

(** The running sum of a map entry: absent until the first gradient
    arrives, added to from then on. *)
Definition total (start : option scalar) (gs : list scalar) : option scalar :=
  fold_left (fun acc g => Some (match acc with
                                | Some a => py_add a g
                                | None => g
                                end)) gs start.

(** The records a run has visited, read off the lines it printed. *)
Fixpoint visited (out : list line) : list Tape :=
  match out with
  | [] => []
  | print_tape t :: rest => t :: visited rest
  | print_grad _ _ _ :: rest => visited rest
  end.

(** The first of [outs] without an entry in the gradient map. *)
Fixpoint first_missing (outs : list string) (dl_d : dict) : option string :=
  match outs with
  | [] => None
  | o :: rest =>
      match dict_get o dl_d with
      | Some _ => first_missing rest dl_d
      | None => Some o
      end
  end.

(** How many gradients a backward rule returns. *)
Definition arity (b : backward) : nat :=
  match b with
  | add_backward _ _ | mul_backward _ _ | sub_backward _ _ => 2
  | sin_backward _ | log_backward _ => 1
  end.

(** A record as the operators make them: one input id for each gradient
    its backward rule returns. *)
Definition well_formed (t : Tape) : Prop :=
  List.length (inputs t) = arity (propagate t).

(** A session [s'] reached from [s] by appending records and drawing
    identities. *)
Definition grows (s s' : session) : Prop :=
  id_counter s <= id_counter s' /\
  exists app, Tape_list s' = Tape_list s ++ app.

Definition only_appends {A} (m : M A) : Prop :=
  forall s, grows s (final (m s)).

(** A computation that prints nothing. *)
Definition silent {A} (m : M A) : Prop :=
  forall s, printed (m s) = [].

(** The session and the gradient map of [grad l] when its reverse pass
    starts: the seed [Variable(1.0)] has drawn one identity. *)
Definition after_seed (s : session) : session :=
  {| id_counter := S (id_counter s); Tape_list := Tape_list s |}.

Definition seed (l : Var) (s : session) : dict :=
  [(name l, mkVar (PyFloat 1) (v_ (S (id_counter s))))].

(** The lines of the closing loop of [grad]. *)
Definition grad_lines (l : Var) (dl_d : dict) : list line :=
  map (fun kv => print_grad (name l) (fst kv) (value (snd kv))) dl_d.

(** ** Scenarios

    The closed runs below contain no sine and no logarithm, so the
    backend is never called in them; [not_called] stands where a run
    expects a backend function. *)

Definition not_called (x : float) : float := nan.

(** Scenario 2, [z = x + x] at [x = 3.0]: the nodes, and the session
    once [z] is built. *)
Definition build_diamond : M Var :=
  x <- Variable_init (PyFloat 3) None;;
  add_op (Node x) (Node x).

Definition diamond_x : Var := mkVar (PyFloat 3) "v_1".
Definition diamond_z : Var := mkVar (PyFloat 6) "v_2".
Definition diamond_session : session :=
  {| id_counter := 2;
     Tape_list := [mkTape ["v_1"; "v_1"]%string ["v_2"%string]
                          (add_backward diamond_x diamond_x)] |}.

(** Scenario 4 with the literals lifted by hand, [y = x * two] and an
    unused [w = x * three]: the nodes, and the session once both are
    built. *)
Definition build_dead_branch : M Var :=
  x <- Variable_init (PyFloat 5) None;;
  two <- Variable_init (PyFloat 2) None;;
  y <- mul_op (Node x) (Node two);;
  three <- Variable_init (PyFloat 3) None;;
  w <- mul_op (Node x) (Node three);;
  ret y.

Definition dead_x : Var := mkVar (PyFloat 5) "v_1".
Definition dead_two : Var := mkVar (PyFloat 2) "v_2".
Definition dead_y : Var := mkVar (PyFloat 10) "v_3".
Definition dead_three : Var := mkVar (PyFloat 3) "v_4".
Definition record_y : Tape :=
  mkTape ["v_1"; "v_2"]%string ["v_3"%string] (mul_backward dead_x dead_two).
Definition record_w : Tape :=
  mkTape ["v_1"; "v_4"]%string ["v_5"%string] (mul_backward dead_x dead_three).
Definition dead_session : session :=
  {| id_counter := 5; Tape_list := [record_y; record_w] |}.

(** Scenario 1, the expression of the driver:
    [f = log(x) + x * y - sin(y)] at [x = 2.0], [y = 5.0], and the entries
    of [x] and [y] in the gradient map of [f]. *)
Definition scenario_1 (np_sin np_cos np_log : float -> float)
  : M (option scalar * option scalar) :=
  x <- Variable_init (PyFloat 2) None;;
  y <- Variable_init (PyFloat 5) None;;
  log_x <- log_op np_log (Node x);;
  xy <- mul_op (Node x) (Node y);;
  sum <- add_op (Node log_x) (Node xy);;
  sin_y <- sin_op np_sin (Node y);;
  f <- sub_op (Node sum) (Node sin_y);;
  dl_d <- grad_dl_d np_cos f;;
  ret (option_map value (dict_get (name x) dl_d),
       option_map value (dict_get (name y) dl_d)).

(** A node made before [reset_tape] and a node made after it. *)
Definition across_reset : M (Var * Var) :=
  x <- Variable_init (PyFloat 1) None;;
  reset_tape;;;
  y <- Variable_init (PyFloat 2) None;;
  ret (x, y).

(** * The rest of the engine *)

(** ** The methods of class Variable *)

(** Variable.__add__ *)
Definition Variable_add (self : Var) (other : operand) : M Var :=
  add_op (Node self) other.

(** Variable.__mul__ *)
Definition Variable_mul (self : Var) (other : operand) : M Var :=
  mul_op (Node self) other.

(** Variable.__sub__ *)
Definition Variable_sub (self : Var) (other : operand) : M Var :=
  sub_op (Node self) other.

(** Variable.sin *)
Definition Variable_sin (np_sin : float -> float) (self : Var) : M Var :=
  sin_op np_sin (Node self).

(** Variable.log *)
Definition Variable_log (np_log : float -> float) (self : Var) : M Var :=
  log_op np_log (Node self).

(** An expression [left + right], [left - right] or [left * right] as
    Python evaluates it.  With a Variable on the left its method runs
    and gets the right operand as it is.  Class Variable defines no
    reflected method ([__radd__], [__rsub__], [__rmul__]), so with a
    number on the left and a Variable on the right no method applies and
    Python raises [TypeError] before any code of the engine has run.  Two
    numbers are plain arithmetic. *)
Inductive evaluation : Type :=
| Dispatched (r : result Var)
| TypeError (s : session)
| Arithmetic (x : scalar) (s : session).

Definition binary_operator (method : Var -> operand -> M Var)
    (arithmetic : scalar -> scalar -> scalar) (left right : operand)
    (s : session) : evaluation :=
  match left, right with
  | Node x, _ => Dispatched (method x right s)
  | Literal _, Node _ => TypeError s
  | Literal a, Literal b => Arithmetic (arithmetic a b) s
  end.

(** Nodes created in a row without a name, [Variable(v)] for each [v]. *)
Fixpoint new_nodes (vs : list scalar) : M (list Var) :=
  match vs with
  | [] => ret []
  | v :: rest =>
      x <- Variable_init v None;;
      xs <- new_nodes rest;;
      ret (x :: xs)
  end.

(** ** The driver, [if __name__ == "__main__"] *)

(** Its first block, an experiment on lists:
    [for x in reversed(lst): print(x); if x == 2: lst.append(99)] and then
    [print("final:", lst)].  The result is the list at the end and the
    numbers printed by the loop.  [remaining] is the index of the reverse
    iterator plus one, as in [reversed_loop]. *)
Fixpoint experiment_loop (remaining : nat) (lst : list Z) (out : list Z)
  : list Z * list Z :=
  match remaining with
  | 0 => (lst, out)
  | S index =>
      match nth_error lst index with
      | Some x =>
          experiment_loop index
            (if Z.eqb x 2 then lst ++ [99%Z] else lst) (out ++ [x])
      | None => (lst, out)
      end
  end.

Definition experiment (lst : list Z) : list Z * list Z :=
  experiment_loop (List.length lst) lst [].

(** Its second block: [x = Variable.verbose_init(2.)],
    [y = Variable.verbose_init(5.)],
    [f = Variable.log(x) + x * y - Variable.sin(y)] and [grad(f, [x, y])],
    with the two literals as parameters.  Python evaluates the operands
    of [+] and [-] from left to right. *)
Definition main_at (np_sin np_cos np_log : float -> float) (vx vy : float)
  : M pyobject :=
  x <- verbose_init (PyFloat vx) None;;
  y <- verbose_init (PyFloat vy) None;;
  log_x <- Variable_log np_log x;;
  xy <- Variable_mul x (Node y);;
  sum <- Variable_add log_x (Node xy);;
  sin_y <- Variable_sin np_sin y;;
  f <- Variable_sub sum (Node sin_y);;
  grad np_cos f [x; y].

Definition main (np_sin np_cos np_log : float -> float) : M pyobject :=
  main_at np_sin np_cos np_log 2 5.

(** ** Vocabulary of the further properties *)

(** The records [app] carry one output id each, generated identities
    with counter values that increase along [app], all above [lo] and
    none above [hi]. *)
Fixpoint fresh_records (lo : nat) (app : list Tape) (hi : nat) : Prop :=
  match app with
  | [] => lo <= hi
  | t :: rest =>
      exists k, outputs t = [v_ k] /\ lo < k /\ fresh_records k rest hi
  end.

(** From [s] to [s'] the log has only been appended to, by records whose
    output ids were drawn from the counter on the way. *)
Definition appends_fresh (s s' : session) : Prop :=
  exists app,
    Tape_list s' = Tape_list s ++ app /\
    fresh_records (id_counter s) app (id_counter s').

(** The whole log of [s] is made of such records. *)
Definition numbered (s : session) : Prop :=
  fresh_records 0 (Tape_list s) (id_counter s).

Definition draws_fresh {A} (m : M A) : Prop :=
  forall s, appends_fresh s (final (m s)).

(** The gradient lines among the lines a run has printed: node id and
    value. *)
Fixpoint printed_gradients (out : list line) : list (string * scalar) :=
  match out with
  | [] => []
  | print_tape _ :: rest => printed_gradients rest
  | print_grad _ key v :: rest => (key, v) :: printed_gradients rest
  end.

(** One expression of a single operator on tracked operands, and the
    entries of the operands in the gradient map of its result. *)
Definition gradients_of (np_cos : float -> float) (op : M Var) (a b : Var)
  : M (option scalar * option scalar) :=
  f <- op;;
  dl_d <- grad_dl_d np_cos f;;
  ret (option_map value (dict_get (name a) dl_d),
       option_map value (dict_get (name b) dl_d)).

(** * Properties *)

(** ** The monad *)

Lemma grows_refl s : grows s s.
Proof. split; [lia | exists []; now rewrite app_nil_r]. Qed.

Lemma grows_trans s1 s2 s3 : grows s1 s2 -> grows s2 s3 -> grows s1 s3.
Proof.
  intros [H1 [a1 E1]] [H2 [a2 E2]]. split; [lia |].
  exists (a1 ++ a2). now rewrite E2, E1, app_assoc.
Qed.

Lemma final_prepend {A} o (r : result A) : final (prepend o r) = final r.
Proof. now destruct r. Qed.

Lemma printed_prepend {A} o (r : result A) :
  printed (prepend o r) = o ++ printed r.
Proof. now destruct r. Qed.

Lemma prepend_nil {A} (r : result A) : prepend [] r = r.
Proof. now destruct r. Qed.

Lemma bind_Ok {A B} (m : M A) (f : A -> M B) s a s1 o1 :
  m s = Ok a s1 o1 -> bind m f s = prepend o1 (f a s1).
Proof. unfold bind. now intros ->. Qed.

Lemma bind_Raise {A B} (m : M A) (f : A -> M B) s e s1 o1 :
  m s = Raise e s1 o1 -> bind m f s = Raise e s1 o1.
Proof. unfold bind. now intros ->. Qed.

Lemma bind_Ok_inv {A B} (m : M A) (f : A -> M B) s b s' o :
  bind m f s = Ok b s' o ->
  exists a s1 o1 o2, m s = Ok a s1 o1 /\ f a s1 = Ok b s' o2 /\ o = o1 ++ o2.
Proof.
  unfold bind. destruct (m s) as [a s1 o1 | e s1 o1]; [|discriminate].
  destruct (f a s1) as [b' s2 o2 | e s2 o2] eqn:E; cbn; [|discriminate].
  intros [= <- <- <-]. now exists a, s1, o1, o2.
Qed.

(** Two continuations that agree on every state the first part can
    reach give the same computation. *)
Lemma bind_ext_on {A B} (m : M A) (f g : A -> M B) s :
  (forall a s1 o1, m s = Ok a s1 o1 -> f a s1 = g a s1) ->
  bind m f s = bind m g s.
Proof.
  intros H. unfold bind. destruct (m s) as [a s1 o1 | e s1 o1] eqn:E; [|reflexivity].
  now rewrite (H a s1 o1).
Qed.

Lemma only_appends_ret {A} (a : A) : only_appends (ret a).
Proof. intros s. apply grows_refl. Qed.

Lemma only_appends_raise {A} e : only_appends (@raise A e).
Proof. intros s. apply grows_refl. Qed.

Lemma only_appends_bind {A B} (m : M A) (f : A -> M B) :
  only_appends m -> (forall a, only_appends (f a)) -> only_appends (bind m f).
Proof.
  intros Hm Hf s. unfold bind. specialize (Hm s).
  destruct (m s) as [a s1 o1 | e s1 o1]; cbn in *; [|assumption].
  rewrite final_prepend. eapply grows_trans; [eassumption | apply Hf].
Qed.

Lemma only_appends_print l : only_appends (print l).
Proof. intros s. apply grows_refl. Qed.

Lemma only_appends_append t : only_appends (append t).
Proof. intros s. split; cbn; [lia | now exists [t]]. Qed.

Lemma only_appends_id_generator : only_appends id_generator.
Proof. intros s. split; cbn; [lia | exists []; now rewrite app_nil_r]. Qed.

Create HintDb appends.
#[local] Hint Resolve only_appends_ret only_appends_raise only_appends_print
  only_appends_append only_appends_id_generator : appends.

Ltac appends :=
  repeat first
    [ solve [auto with appends]
    | apply only_appends_bind; [| intros ?] ].

Lemma only_appends_Variable_init v n : only_appends (Variable_init v n).
Proof.
  unfold Variable_init. destruct n as [n|]; [destruct (String.eqb n "")|]; appends.
Qed.
#[local] Hint Resolve only_appends_Variable_init : appends.

Lemma only_appends_the_variable o : only_appends (the_variable o).
Proof. destruct o; cbn; appends. Qed.
#[local] Hint Resolve only_appends_the_variable : appends.

Lemma only_appends_add_op a b : only_appends (add_op a b).
Proof. unfold add_op, verbose_init. appends. Qed.

Lemma only_appends_mul_op a b : only_appends (mul_op a b).
Proof. unfold mul_op, verbose_init. appends. Qed.

Lemma only_appends_sub_op a b : only_appends (sub_op a b).
Proof. unfold sub_op, verbose_init. appends. Qed.
#[local] Hint Resolve only_appends_add_op only_appends_mul_op
  only_appends_sub_op : appends.

Lemma only_appends_unpack1 l : only_appends (unpack1 l).
Proof. destruct l as [|x [|y l]]; cbn; appends. Qed.
#[local] Hint Resolve only_appends_unpack1 : appends.

Lemma only_appends_grad_outputs outs d : only_appends (grad_outputs outs d).
Proof.
  induction outs as [|o outs IH]; cbn; [appends|].
  destruct (dict_get o d); appends.
Qed.
#[local] Hint Resolve only_appends_grad_outputs : appends.

Lemma only_appends_accumulate pairs : forall d, only_appends (accumulate pairs d).
Proof.
  induction pairs as [|[input g] pairs IH]; intros d; cbn; [appends|].
  destruct (dict_get input d); appends.
Qed.
#[local] Hint Resolve only_appends_accumulate : appends.

Lemma only_appends_print_items l items : only_appends (print_items l items).
Proof. induction items as [|[k v] items IH]; cbn; appends. Qed.
#[local] Hint Resolve only_appends_print_items : appends.

(** ** How single steps run *)

Lemma Variable_init_None v s :
  Variable_init v None s
  = Ok (mkVar v (v_ (S (id_counter s))))
       {| id_counter := S (id_counter s); Tape_list := Tape_list s |} [].
Proof. reflexivity. Qed.

Lemma add_op_Node a b s :
  let x := mkVar (py_add (value a) (value b)) (v_ (S (id_counter s))) in
  add_op (Node a) (Node b) s
  = Ok x {| id_counter := S (id_counter s);
            Tape_list := Tape_list s
                         ++ [mkTape [name a; name b] [name x] (add_backward a b)] |} [].
Proof. reflexivity. Qed.

Lemma mul_op_Node a b s :
  let x := mkVar (py_mul (value a) (value b)) (v_ (S (id_counter s))) in
  mul_op (Node a) (Node b) s
  = Ok x {| id_counter := S (id_counter s);
            Tape_list := Tape_list s
                         ++ [mkTape [name a; name b] [name x] (mul_backward a b)] |} [].
Proof. reflexivity. Qed.

Lemma sub_op_Node a b s :
  let x := mkVar (py_sub (value a) (value b)) (v_ (S (id_counter s))) in
  sub_op (Node a) (Node b) s
  = Ok x {| id_counter := S (id_counter s);
            Tape_list := Tape_list s
                         ++ [mkTape [name a; name b] [name x] (sub_backward a b)] |} [].
Proof. reflexivity. Qed.

(** ** More on the monad and on single steps *)

Lemma prepend_prepend {A} o1 o2 (r : result A) :
  prepend o1 (prepend o2 r) = prepend (o1 ++ o2) r.
Proof. destruct r; cbn; now rewrite app_assoc. Qed.

Lemma bind_prepend {A B} o (r : result A) (f : A -> M B) :
  match prepend o r with
  | Ok a s1 o1 => prepend o1 (f a s1)
  | Raise e s1 o1 => Raise e s1 o1
  end
  = prepend o match r with
              | Ok a s1 o1 => prepend o1 (f a s1)
              | Raise e s1 o1 => Raise e s1 o1
              end.
Proof. destruct r; cbn; [now rewrite prepend_prepend | reflexivity]. Qed.

Lemma bind_assoc {A B C} (m : M A) (f : A -> M B) (g : B -> M C) s :
  bind (bind m f) g s = bind m (fun a => bind (f a) g) s.
Proof.
  unfold bind. destruct (m s) as [a s1 o1 | e s1 o1]; [|reflexivity].
  apply bind_prepend.
Qed.

Lemma print_items_run l items s :
  print_items l items s
  = Ok tt s (map (fun kv => print_grad l (fst kv) (value (snd kv))) items).
Proof.
  induction items as [|[k v] items IH]; [reflexivity|].
  cbn [print_items]. unfold bind, print. now rewrite IH.
Qed.

Lemma grad_outputs_missing outs d o s :
  first_missing outs d = Some o ->
  grad_outputs outs d s = Raise (KeyError o) s [].
Proof.
  induction outs as [|x outs IH]; cbn; [discriminate|].
  destruct (dict_get x d); [|now intros [= ->]].
  intros H. unfold bind. now rewrite (IH H).
Qed.

Lemma printed_bind {A B} (m : M A) (f : A -> M B) s :
  printed (bind m f s)
  = printed (m s) ++ match m s with
                     | Ok a s1 _ => printed (f a s1)
                     | Raise _ _ _ => []
                     end.
Proof.
  unfold bind. destruct (m s) as [a s1 o1 | e s1 o1]; cbn.
  - apply printed_prepend.
  - now rewrite app_nil_r.
Qed.

Lemma firstn_snoc {A} (l : list A) n x :
  nth_error l n = Some x -> firstn (S n) l = firstn n l ++ [x].
Proof.
  revert n. induction l as [|y l IH]; intros [|n] H; cbn in *; try discriminate.
  - now inversion H.
  - f_equal. now apply IH.
Qed.

Lemma map_fst_combine {A B} (a : list A) : forall (b : list B),
  List.length a = List.length b -> map fst (combine a b) = a.
Proof.
  induction a as [|x a IH]; intros [|y b]; cbn; try discriminate; [reflexivity|].
  intros [= H]. now rewrite IH.
Qed.

(** ** What a pass prints *)

Lemma silent_ret {A} (a : A) : silent (ret a).
Proof. intros s. reflexivity. Qed.

Lemma silent_raise {A} e : silent (@raise A e).
Proof. intros s. reflexivity. Qed.

Lemma silent_bind {A B} (m : M A) (f : A -> M B) :
  silent m -> (forall a, silent (f a)) -> silent (bind m f).
Proof.
  intros Hm Hf s. unfold bind. specialize (Hm s).
  destruct (m s) as [a s1 o1 | e s1 o1]; cbn in *; [|assumption].
  rewrite printed_prepend, Hm. apply Hf.
Qed.

Lemma silent_append t : silent (append t).
Proof. intros s. reflexivity. Qed.

Lemma silent_id_generator : silent id_generator.
Proof. intros s. reflexivity. Qed.

Create HintDb silence.
#[local] Hint Resolve silent_ret silent_raise silent_append
  silent_id_generator : silence.

Ltac silence :=
  repeat first
    [ solve [auto with silence]
    | apply silent_bind; [| intros ?] ].

Lemma silent_Variable_init v n : silent (Variable_init v n).
Proof.
  unfold Variable_init. destruct n as [n|]; [destruct (String.eqb n "")|]; silence.
Qed.
#[local] Hint Resolve silent_Variable_init : silence.

Lemma silent_the_variable o : silent (the_variable o).
Proof. destruct o; cbn; silence. Qed.
#[local] Hint Resolve silent_the_variable : silence.

Lemma silent_add_op a b : silent (add_op a b).
Proof. unfold add_op, verbose_init. silence. Qed.

Lemma silent_mul_op a b : silent (mul_op a b).
Proof. unfold mul_op, verbose_init. silence. Qed.

Lemma silent_sub_op a b : silent (sub_op a b).
Proof. unfold sub_op, verbose_init. silence. Qed.
#[local] Hint Resolve silent_add_op silent_mul_op silent_sub_op : silence.

Lemma silent_unpack1 l : silent (unpack1 l).
Proof. destruct l as [|x [|y l]]; cbn; silence. Qed.
#[local] Hint Resolve silent_unpack1 : silence.

Lemma silent_grad_outputs outs d : silent (grad_outputs outs d).
Proof.
  induction outs as [|o outs IH]; cbn; [silence|].
  destruct (dict_get o d); silence.
Qed.
#[local] Hint Resolve silent_grad_outputs : silence.

Lemma silent_accumulate pairs : forall d, silent (accumulate pairs d).
Proof.
  induction pairs as [|[input g] pairs IH]; intros d; cbn; [silence|].
  destruct (dict_get input d); silence.
Qed.
#[local] Hint Resolve silent_accumulate : silence.

Lemma visited_app o1 o2 : visited (o1 ++ o2) = visited o1 ++ visited o2.
Proof.
  induction o1 as [|[t|l k v] o1 IH]; cbn; [reflexivity | now rewrite IH | exact IH].
Qed.

Lemma visited_grad_lines l d : visited (grad_lines l d) = [].
Proof. induction d as [|[k v] d IH]; [reflexivity | exact IH]. Qed.

(** ** Accumulation *)

Lemma dict_get_set n k v d :
  dict_get n (dict_set k v d) = if String.eqb n k then Some v else dict_get n d.
Proof.
  induction d as [|[k' v'] d IH]; cbn; [reflexivity|].
  destruct (String.eqb_spec k k') as [<-|Hk]; cbn.
  - now destruct (String.eqb n k).
  - rewrite IH. destruct (String.eqb_spec n k') as [->|Hn]; [|reflexivity].
    destruct (String.eqb_spec k' k) as [->|_]; [contradiction | reflexivity].
Qed.

Lemma delivered_to_cons n input g pairs :
  delivered_to n ((input, g) :: pairs)
  = if String.eqb n input then value g :: delivered_to n pairs
    else delivered_to n pairs.
Proof. unfold delivered_to. cbn. now destruct (String.eqb n input). Qed.

Lemma delivered_to_app n p1 p2 :
  delivered_to n (p1 ++ p2) = delivered_to n p1 ++ delivered_to n p2.
Proof. unfold delivered_to. now rewrite filter_app, map_app. Qed.

Lemma total_app start g1 g2 : total start (g1 ++ g2) = total (total start g1) g2.
Proof. apply fold_left_app. Qed.

(** The inner loop never raises and prints nothing; every entry of the
    map ends as its running sum over the gradients delivered to it. *)
Lemma accumulate_law pairs : forall d s,
  exists d' s',
    accumulate pairs d s = Ok d' s' [] /\
    forall n, option_map value (dict_get n d')
              = total (option_map value (dict_get n d)) (delivered_to n pairs).
Proof.
  induction pairs as [|[input g] pairs IH]; intros d s; cbn [accumulate].
  - now exists d, s.
  - destruct (dict_get input d) as [cur|] eqn:Ecur.
    + rewrite (bind_Ok _ _ _ _ _ _ (add_op_Node cur g s)), prepend_nil.
      match goal with |- context [accumulate pairs ?d1 ?s1] =>
        destruct (IH d1 s1) as (d' & s' & Hrun & Hlaw) end.
      exists d', s'. split; [exact Hrun|]. intros n.
      rewrite Hlaw, dict_get_set, delivered_to_cons.
      destruct (String.eqb_spec n input) as [->|_]; [|reflexivity].
      now rewrite Ecur.
    + destruct (IH (dict_set input g d) s) as (d' & s' & Hrun & Hlaw).
      exists d', s'. split; [exact Hrun|]. intros n.
      rewrite Hlaw, dict_get_set, delivered_to_cons.
      destruct (String.eqb_spec n input) as [->|_]; [|reflexivity].
      now rewrite Ecur.
Qed.

(** ** IEEE-754 facts the backward rules rely on *)

Local Open Scope Z_scope.

Lemma shr_52 (m : positive) (e : Z) :
  shr {| shr_m := Zpos (4503599627370496 * m); shr_r := false; shr_s := false |} e 52
  = ({| shr_m := Zpos m; shr_r := false; shr_s := false |}, e + 52).
Proof. reflexivity. Qed.

Lemma Zdigits2_shift_52 (m : positive) :
  Zdigits2 (Zpos (4503599627370496 * m)) = Zdigits2 (Zpos m) + 52.
Proof. cbn. lia. Qed.

(** Multiplying by a unit [+-1.0] is exact: the significand comes back
    unchanged from the rounding, and the signs are xor-ed. *)
Lemma SFmul_unit (sy : bool) (x : spec_float) :
  valid_binary prec emax x = true ->
  SFmul prec emax x (S754_finite sy 4503599627370496 (-52))
  = if sy then SFopp x else x.
Proof.
  destruct x as [sx | sx | | sx mx ex]; cbn [SFmul SFopp]; intros Hv;
    [destruct sx, sy; reflexivity | destruct sx, sy; reflexivity
    | destruct sy; reflexivity | ].
  cbn [valid_binary] in Hv. unfold bounded in Hv.
  apply andb_true_iff in Hv. destruct Hv as [Hc Hb].
  unfold canonical_mantissa in Hc. apply Z.eqb_eq in Hc.
  unfold binary_round_aux, shr_fexp.
  rewrite Pos.mul_comm, Zdigits2_shift_52.
  cbn [shr_record_of_loc].
  replace (fexp prec emax (Zdigits2 (Z.pos mx) + 52 + (ex + -52)) - (ex + -52))
    with 52.
  2:{ replace (Zdigits2 (Z.pos mx) + 52 + (ex + -52))
        with (Z.pos (digits2_pos mx) + ex) by (cbn [Zdigits2]; lia).
      rewrite Hc. lia. }
  rewrite shr_52. cbn [shr_m loc_of_shr_record shr_r shr_s round_nearest_even].
  cbn [shr_record_of_loc].
  replace (fexp prec emax (Zdigits2 (Z.pos mx) + (ex + -52 + 52)) - (ex + -52 + 52))
    with 0.
  2:{ replace (Zdigits2 (Z.pos mx) + (ex + -52 + 52))
        with (Z.pos (digits2_pos mx) + ex) by (cbn [Zdigits2]; lia).
      rewrite Hc. lia. }
  cbn [shr shr_m].
  replace (ex + -52 + 52) with ex by lia.
  rewrite Hb. destruct sx, sy; reflexivity.
Qed.

Local Close Scope Z_scope.

Lemma mul_one_r (x : float) : (x * 1)%float = x.
Proof.
  apply Prim2SF_inj. rewrite mul_spec.
  change (Prim2SF 1) with (S754_finite false 4503599627370496 (-52)).
  apply (SFmul_unit false), Prim2SF_valid.
Qed.

Lemma mul_minus_one_r (x : float) : (x * -1)%float = (- x)%float.
Proof.
  apply Prim2SF_inj. rewrite mul_spec, opp_spec.
  change (Prim2SF (-1)) with (S754_finite true 4503599627370496 (-52)).
  apply (SFmul_unit true), Prim2SF_valid.
Qed.

(** A positive double is not a zero. *)
Lemma positive_not_zero (x : float) :
  (0 <? x)%float = true -> (x =? 0)%float = false.
Proof.
  rewrite ltb_spec, eqb_spec.
  change (Prim2SF 0) with (S754_zero false).
  destruct (Prim2SF x) as [sx | sx | | sx mx ex]; cbn; try discriminate;
    try reflexivity; now destruct sx.
Qed.

Lemma num_arith op a b : num (arith op a b) = op (num a) (num b).
Proof. now destruct a, b. Qed.

(** ** Identities *)

Lemma v_inj m n : v_ m = v_ n -> m = n.
Proof.
  unfold v_, str. cbn. intros [= H].
  apply DecimalNat.Unsigned.to_uint_inj.
  assert (E : Some (Nat.to_uint m) = Some (Nat.to_uint n))
    by now rewrite <- !NilEmpty.usu, H.
  now injection E.
Qed.

(** * The reverse pass *)

Section ReversePass.

Variable np_cos : float -> float.

Lemma only_appends_call b gs : only_appends (call np_cos b gs).
Proof.
  destruct b; cbn [call]; appends.
  destruct (py_inv (value self)); appends.
Qed.

Lemma only_appends_contributions t d : only_appends (contributions np_cos t d).
Proof.
  unfold contributions. pose proof only_appends_call. appends.
Qed.

Lemma only_appends_visit t d : only_appends (visit np_cos t d).
Proof.
  unfold visit. pose proof only_appends_contributions. appends.
Qed.

Lemma only_appends_for_each ts : forall d, only_appends (for_each np_cos ts d).
Proof.
  induction ts as [|t ts IH]; intros d; cbn; [appends|].
  pose proof only_appends_visit. appends.
Qed.

Lemma silent_call b gs : silent (call np_cos b gs).
Proof.
  destruct b; cbn [call]; silence.
  destruct (py_inv (value self)); silence.
Qed.

(** ** The reverse iterator against the snapshot *)

(** While records are only appended, the iterator that reads the live
    tape yields the records of the tape it started on, last one first. *)
Lemma reversed_loop_prefix n : forall T d s,
  n <= List.length T ->
  (exists extra, Tape_list s = T ++ extra) ->
  reversed_loop np_cos n d s = for_each np_cos (rev (firstn n T)) d s.
Proof.
  induction n as [|n IH]; intros T d s Hn [extra HT]; [reflexivity|].
  cbn [reversed_loop].
  destruct (nth_error T n) as [t|] eqn:Et.
  2:{ apply nth_error_None in Et. lia. }
  rewrite HT, nth_error_app1 by lia. rewrite Et.
  rewrite (firstn_snoc _ _ _ Et), rev_app_distr. cbn [rev app for_each].
  apply bind_ext_on. intros d' s1 o1 Hv.
  apply IH; [lia|].
  pose proof (only_appends_visit t d s) as [_ [app Happ]].
  rewrite Hv in Happ. cbn in Happ.
  exists (extra ++ app). now rewrite Happ, HT, app_assoc.
Qed.

Lemma reversed_loop_snapshot d s :
  reversed_loop np_cos (List.length (Tape_list s)) d s
  = for_each np_cos (rev (Tape_list s)) d s.
Proof.
  rewrite (reversed_loop_prefix _ (Tape_list s)).
  - now rewrite firstn_all.
  - lia.
  - exists []. now rewrite app_nil_r.
Qed.

Lemma only_appends_grad_dl_d l : only_appends (grad_dl_d np_cos l).
Proof.
  unfold grad_dl_d. apply only_appends_bind; [appends|].
  intros seed s. rewrite reversed_loop_snapshot. apply only_appends_for_each.
Qed.

Lemma only_appends_grad l results : only_appends (grad np_cos l results).
Proof.
  unfold grad. pose proof only_appends_grad_dl_d. appends.
Qed.

Lemma for_each_app ts1 ts2 : forall d s,
  for_each np_cos (ts1 ++ ts2) d s
  = bind (for_each np_cos ts1 d) (for_each np_cos ts2) s.
Proof.
  induction ts1 as [|t ts1 IH]; intros d s; cbn [app for_each].
  - unfold bind, ret. now rewrite prepend_nil.
  - rewrite bind_assoc. apply bind_ext_on. intros d' s1 o1 _.
    apply IH.
Qed.

Lemma grad_dl_d_snapshot l s :
  grad_dl_d np_cos l s
  = for_each np_cos (rev (Tape_list s)) (seed l s) (after_seed s).
Proof.
  unfold grad_dl_d, bind. rewrite Variable_init_None. rewrite prepend_nil.
  exact (reversed_loop_snapshot (seed l s) (after_seed s)).
Qed.

Lemma grad_run l results s :
  grad np_cos l results s
  = match grad_dl_d np_cos l s with
    | Ok dl_d s' out => Ok PyNone s' (out ++ grad_lines l dl_d)
    | Raise e s' out => Raise e s' out
    end.
Proof.
  unfold grad, bind. destruct (grad_dl_d np_cos l s) as [d s' out | e s' out];
    [|reflexivity].
  rewrite print_items_run. cbn. now rewrite app_nil_r.
Qed.

(** C1 (as amended): [grad] hands no gradient map to its caller.  Whenever
    it returns, the value returned is [None]; the map [dl_d] it has built
    is local, and all the caller gets to see of it is one printed line
    per entry, after the lines of the pass.  When the pass raises, so
    does [grad]. *)
Theorem grad_returns_None : forall l results s,
  match grad np_cos l results s with
  | Ok v s' out =>
      v = PyNone /\
      exists dl_d out0,
        grad_dl_d np_cos l s = Ok dl_d s' out0 /\
        out = out0 ++ grad_lines l dl_d
  | Raise e s' out => grad_dl_d np_cos l s = Raise e s' out
  end.
Proof.
  intros l results s. rewrite grad_run.
  destruct (grad_dl_d np_cos l s) as [d s' out | e s' out]; [|reflexivity].
  split; [reflexivity|]. now exists d, out.
Qed.

(** C9: the second parameter of [grad] is never read: whatever list of
    variables of interest is passed, the call prints the same gradient
    map, ends in the same session and has the same outcome. *)
Theorem grad_ignores_results : forall l results1 results2 s,
  grad np_cos l results1 s = grad np_cos l results2 s.
Proof.
  intros l results1 results2 s. now rewrite !grad_run.
Qed.

(** ** What the pass prints *)

Lemma contributions_printed t d s :
  printed (contributions np_cos t d s) = [print_tape t].
Proof.
  unfold contributions. rewrite printed_bind. cbn.
  f_equal. pose proof silent_call as H.
  assert (S : silent (grad_outputs' <- grad_outputs (outputs t) d;;
                      grad_inputs <- call np_cos (propagate t) grad_outputs';;
                      ret (combine (inputs t) grad_inputs))) by silence.
  apply S.
Qed.

(** A visit prints the record it visits and nothing else. *)
Lemma visit_printed t d s : printed (visit np_cos t d s) = [print_tape t].
Proof.
  unfold visit. rewrite printed_bind, contributions_printed.
  destruct (contributions np_cos t d s); [|reflexivity].
  now rewrite silent_accumulate.
Qed.

Lemma visit_missing t d o s :
  first_missing (outputs t) d = Some o ->
  visit np_cos t d s = Raise (KeyError o) s [print_tape t].
Proof.
  intros H. unfold visit, contributions, bind, print.
  now rewrite (grad_outputs_missing _ _ _ _ H).
Qed.

(** C2 (as amended): a record whose output id has no entry in the
    gradient map is not skipped with a zero gradient.  When the reverse
    pass, having visited the records [ts1] without incident, reaches a
    record [tabe] one of whose outputs is missing from the map, [grad]
    raises [KeyError] for that id right after printing the record; the
    records [ts2] that come before it in the log are never visited. *)
Theorem dead_record_raises_KeyError :
  forall l results s ts1 tabe ts2 d1 s1 o1 o,
    rev (Tape_list s) = ts1 ++ tabe :: ts2 ->
    for_each np_cos ts1 (seed l s) (after_seed s) = Ok d1 s1 o1 ->
    first_missing (outputs tabe) d1 = Some o ->
    grad np_cos l results s = Raise (KeyError o) s1 (o1 ++ [print_tape tabe]).
Proof.
  intros l results s ts1 tabe ts2 d1 s1 o1 o Hrev Hts1 Hmiss.
  rewrite grad_run, grad_dl_d_snapshot, Hrev, for_each_app.
  rewrite (bind_Ok _ _ _ _ _ _ Hts1). cbn [for_each].
  rewrite (bind_Raise _ _ _ _ _ _ (visit_missing tabe d1 o s1 Hmiss)).
  reflexivity.
Qed.

Lemma for_each_visited ts : forall d s,
  (exists k, visited (printed (for_each np_cos ts d s)) = firstn k ts) /\
  (forall d' s' o, for_each np_cos ts d s = Ok d' s' o -> visited o = ts).
Proof.
  induction ts as [|t ts IH]; intros d s.
  - split; [now exists 0|]. cbn. now intros d' s' o [= _ _ <-].
  - cbn [for_each]. rewrite printed_bind, visit_printed.
    pose proof (visit_printed t d s) as Hp. unfold bind.
    destruct (visit np_cos t d s) as [d1 s1 o1 | e s1 o1]; cbn in Hp; subst.
    + destruct (IH d1 s1) as [[k Hk] Hall]. split.
      * exists (S k). cbn. now rewrite Hk.
      * intros d' s' o. destruct (for_each np_cos ts d1 s1) eqn:E; cbn; [|discriminate].
        intros [= _ _ <-]. cbn. f_equal. eapply Hall. reflexivity.
    + split; [now exists 1 | discriminate].
Qed.

(** C10 (as amended): the reverse pass of [grad] is a pass over the
    records that the log holds when [grad] is called, last one first, so
    it ends after at most that many visits; the records appended while it
    runs are never visited by it.  Read off the printed lines, the
    records visited are an initial segment of the reversed log, and all
    of it whenever [grad] returns; a [KeyError] or a [ZeroDivisionError]
    cuts the pass short. *)
Theorem grad_traverses_snapshot : forall l results s,
  grad_dl_d np_cos l s
  = for_each np_cos (rev (Tape_list s)) (seed l s) (after_seed s)
  /\ (exists k, visited (printed (grad np_cos l results s))
                = firstn k (rev (Tape_list s)))
  /\ (forall v s' out,
        grad np_cos l results s = Ok v s' out ->
        visited out = rev (Tape_list s)).
Proof.
  intros l results s. split; [apply grad_dl_d_snapshot|].
  rewrite grad_run, grad_dl_d_snapshot.
  destruct (for_each_visited (rev (Tape_list s)) (seed l s) (after_seed s))
    as [[k Hk] Hall].
  destruct (for_each np_cos (rev (Tape_list s)) (seed l s) (after_seed s))
    as [d s1 o1 | e s1 o1]; cbn in *.
  - rewrite visited_app, visited_grad_lines, app_nil_r.
    split; [now exists k|]. intros v s' out [= _ _ <-].
    rewrite visited_app, visited_grad_lines, app_nil_r. now apply (Hall d s1).
  - split; [now exists k | discriminate].
Qed.

(** *** The log grows *)

Lemma call_extends_tape b gs s r s1 o :
  call np_cos b gs s = Ok r s1 o ->
  List.length (Tape_list s) < List.length (Tape_list s1).
Proof.
  destruct b; destruct gs as [|g [|g' gs]]; cbn; try discriminate.
  1-4: intros [= _ <- _]; cbn; rewrite ?length_app; cbn; lia.
  destruct (py_inv (value self)); cbn; [discriminate|].
  intros [= _ <- _]; cbn; rewrite ?length_app; cbn; lia.
Qed.

Lemma visit_extends_tape t d s d' s' o :
  visit np_cos t d s = Ok d' s' o ->
  List.length (Tape_list s) < List.length (Tape_list s').
Proof.
  unfold visit, contributions. intros H.
  apply bind_Ok_inv in H as (pairs & s3 & o3 & o4 & H & Ha & _).
  apply bind_Ok_inv in H as ([] & s0 & ? & ? & [= <- _] & H & _).
  apply bind_Ok_inv in H as (gs & s1 & ? & ? & Hg & H & _).
  apply bind_Ok_inv in H as (gi & s2 & ? & ? & Hc & [= _ <- _] & _).
  apply call_extends_tape in Hc.
  pose proof (only_appends_grad_outputs (outputs t) d s) as [_ [a0 Ha0]].
  pose proof (only_appends_accumulate pairs d s2) as [_ [a1 Ha1]].
  rewrite Hg in Ha0. rewrite Ha in Ha1. cbn in Ha0, Ha1.
  rewrite Ha1, length_app. rewrite Ha0, length_app in Hc. lia.
Qed.

Lemma for_each_extends_tape ts : forall d s d' s' o,
  for_each np_cos ts d s = Ok d' s' o ->
  List.length (Tape_list s) + List.length ts <= List.length (Tape_list s').
Proof.
  induction ts as [|t ts IH]; intros d s d' s' o; cbn [for_each].
  - intros [= _ <- _]. cbn. lia.
  - intros H. apply bind_Ok_inv in H as (d1 & s1 & ? & ? & Hv & H & _).
    apply visit_extends_tape in Hv. apply IH in H. cbn. lia.
Qed.

(** C5 (as amended): [grad] does mutate the recording log, but only by
    appending to it.  After any call, returned or raised, the log is the
    log before the call followed by the records that the backward rules
    and the accumulation have appended; the records that were there are
    neither removed nor changed.  When the call returns, at least one
    record has been appended for every record that was there.  A later
    call on the same log starts from a seed of its own and runs over the
    longer log, the appended records first. *)
Theorem grad_appends_to_log : forall l results s,
  let s1 := final (grad np_cos l results s) in
  (exists appended,
     Tape_list s1 = Tape_list s ++ appended
     /\ forall l2,
          grad_dl_d np_cos l2 s1
          = for_each np_cos (rev appended ++ rev (Tape_list s))
              (seed l2 s1) (after_seed s1))
  /\ (forall v s' out,
        grad np_cos l results s = Ok v s' out ->
        2 * List.length (Tape_list s) <= List.length (Tape_list s')).
Proof.
  intros l results s s1. split.
  - destruct (only_appends_grad l results s) as [_ [appended Happ]].
    exists appended. split; [exact Happ|]. intros l2.
    rewrite grad_dl_d_snapshot. fold s1 in Happ.
    now rewrite Happ, rev_app_distr.
  - clear s1. rewrite grad_run, grad_dl_d_snapshot. intros v s' out.
    destruct (for_each np_cos (rev (Tape_list s)) (seed l s) (after_seed s))
      as [d s1 o1 | e s1 o1] eqn:E; [|discriminate].
    intros [= _ <- _]. apply for_each_extends_tape in E.
    rewrite length_rev in E. cbn in E. lia.
Qed.

(** ** Accumulation *)

Lemma for_each_law ts : forall d s d' s' o,
  for_each np_cos ts d s = Ok d' s' o ->
  exists pairs,
    all_contributions np_cos ts d s = Ok pairs s' o /\
    forall n, option_map value (dict_get n d')
              = total (option_map value (dict_get n d)) (delivered_to n pairs).
Proof.
  induction ts as [|t ts IH]; intros d s d' s' o; cbn [for_each all_contributions].
  - intros [= <- <- <-]. now exists [].
  - unfold visit. rewrite bind_assoc. intros H.
    apply bind_Ok_inv in H as (pairs & s1 & o1 & o' & Hc & H & ->).
    apply bind_Ok_inv in H as (d1 & s2 & o2 & o3 & Ha & H & ->).
    destruct (accumulate_law pairs d s1) as (d1' & s2' & Ha' & Hlaw).
    rewrite Ha' in Ha. injection Ha as <- <- <-.
    apply IH in H as (later & Hl & Hlaw').
    exists (pairs ++ later). split.
    + rewrite (bind_Ok _ _ _ _ _ _ Hc), (bind_Ok _ _ _ _ _ _ Ha').
      rewrite (bind_Ok _ _ _ _ _ _ Hl). cbn. now rewrite app_nil_r.
    + intros n. now rewrite Hlaw', Hlaw, delivered_to_app, total_app.
Qed.

Lemma call_arity b gs s gi s1 o :
  call np_cos b gs s = Ok gi s1 o -> List.length gi = arity b.
Proof.
  destruct b; destruct gs as [|g [|g' gs]]; cbn; try discriminate.
  1-4: now intros [= <- _ _].
  destruct (py_inv (value self)); cbn; [discriminate|]. now intros [= <- _ _].
Qed.

Lemma contributions_inputs t d s pairs s1 o :
  well_formed t ->
  contributions np_cos t d s = Ok pairs s1 o ->
  map fst pairs = inputs t.
Proof.
  unfold contributions. intros Hwf H.
  apply bind_Ok_inv in H as ([] & s0 & ? & ? & _ & H & _).
  apply bind_Ok_inv in H as (gs & s2 & ? & ? & _ & H & _).
  apply bind_Ok_inv in H as (gi & s3 & ? & ? & Hc & [= <- _ _] & _).
  apply call_arity in Hc. apply map_fst_combine. now rewrite Hc.
Qed.

Lemma all_contributions_inputs ts : forall d s pairs s' o,
  Forall well_formed ts ->
  all_contributions np_cos ts d s = Ok pairs s' o ->
  map fst pairs = List.concat (map inputs ts).
Proof.
  induction ts as [|t ts IH]; intros d s pairs s' o Hwf; cbn [all_contributions].
  - now intros [= <- _ _].
  - inversion Hwf as [|? ? Ht Hts]; subst. intros H.
    apply bind_Ok_inv in H as (p1 & s1 & ? & ? & Hc & H & _).
    apply bind_Ok_inv in H as (d1 & s2 & ? & ? & _ & H & _).
    apply bind_Ok_inv in H as (later & s3 & ? & ? & Hl & [= <- _ _] & _).
    rewrite map_app. cbn. f_equal.
    + eapply contributions_inputs; eassumption.
    + eapply IH; eassumption.
Qed.

(** C3: the accumulation law.  When the reverse pass of [grad l]
    completes, the entry of every node [n] in the gradient map is the sum,
    taken in the order of the pass, of the gradients that the backward
    rules of the visited records delivered to [n] (on top of the seed 1.0
    when [n] is the terminal node itself); on a log of records made by the
    operators there is one such gradient for every occurrence of [n]
    among the inputs of the records, so a node consumed by k records
    sums k contributions.  For [z = x + x] at [x = 3.0] the entry of [x]
    is 2.0. *)
Theorem accumulation_law :
  (forall l s dl_d s' out,
     grad_dl_d np_cos l s = Ok dl_d s' out ->
     exists pairs,
       all_contributions np_cos (rev (Tape_list s)) (seed l s) (after_seed s)
       = Ok pairs s' out
       /\ (Forall well_formed (Tape_list s) ->
           map fst pairs = List.concat (map inputs (rev (Tape_list s))))
       /\ forall n,
            option_map value (dict_get n dl_d)
            = total (if String.eqb n (name l) then Some (PyFloat 1) else None)
                    (delivered_to n pairs))
  /\ exists s out, diamond np_cos fresh_session = Ok (Some (PyFloat 2)) s out.
Proof.
  split.
  - intros l s dl_d s' out. rewrite grad_dl_d_snapshot. intros H.
    destruct (for_each_law _ _ _ _ _ _ H) as (pairs & Hp & Hlaw).
    exists pairs. split; [exact Hp|]. split.
    + intros Hwf. eapply all_contributions_inputs; [|exact Hp].
      now apply Forall_rev.
    + intros n. rewrite Hlaw. cbn. now destruct (String.eqb n (name l)).
  - eexists. eexists. vm_compute. reflexivity.
Qed.

End ReversePass.

(** * The operators *)

Section Operators.

Variables np_sin np_cos np_log : float -> float.

(** C4: the forward value and the backward rule of each operator, on
    tracked operands [a] and [b] and for an incoming gradient [dL].
    [add(a,b)] has value [a.value + b.value] and propagates [(dL, dL)];
    [sub(a,b)] has value [a.value - b.value] and propagates [(dL, -dL)];
    [mul(a,b)] has value [a.value * b.value] and propagates
    [(dL * b.value, dL * a.value)]; [sin(a)] has value [sin(a.value)] and
    propagates [dL * cos(a.value)]; [log(a)] has value [ln(a.value)] and,
    for [a.value > 0], propagates [dL * (1 / a.value)].  Every forward call
    appends the record with the operand ids, the result id and the
    backward rule.  Sine, cosine and logarithm are those of the backend;
    sums, differences, products and quotients are those of the doubles. *)
Theorem operator_contracts : forall (a b dL : Var) (s s0 : session),
  let va := num (value a) in
  let vb := num (value b) in
  let dl := num (value dL) in
  (forward (add_op (Node a) (Node b)) s (va + vb)%float
           [name a; name b] (add_backward a b)
   /\ propagates np_cos (add_backward a b) dL s0 [dl; dl])
  /\ (forward (sub_op (Node a) (Node b)) s (va - vb)%float
              [name a; name b] (sub_backward a b)
      /\ propagates np_cos (sub_backward a b) dL s0 [dl; (- dl)%float])
  /\ (forward (mul_op (Node a) (Node b)) s (va * vb)%float
              [name a; name b] (mul_backward a b)
      /\ propagates np_cos (mul_backward a b) dL s0 [(dl * vb)%float; (dl * va)%float])
  /\ (forward (sin_op np_sin (Node a)) s (np_sin va)
              [name a] (sin_backward a)
      /\ propagates np_cos (sin_backward a) dL s0 [(dl * np_cos va)%float])
  /\ (forward (log_op np_log (Node a)) s (np_log va)
              [name a] (log_backward a)
      /\ ((0 <? va)%float = true ->
          propagates np_cos (log_backward a) dL s0 [(dl * (1 / va))%float])).
Proof.
  intros a b dL s s0 va vb dl. unfold forward, propagates.
  repeat split.
  - do 2 eexists. split; [apply add_op_Node|]. split; [apply num_arith | reflexivity].
  - do 2 eexists. split; [reflexivity|]. cbn.
    unfold py_mul; now rewrite !num_arith, mul_one_r.
  - do 2 eexists. split; [apply sub_op_Node|]. split; [apply num_arith | reflexivity].
  - do 2 eexists. split; [reflexivity|]. cbn.
    unfold py_mul; now rewrite !num_arith, mul_one_r, mul_minus_one_r.
  - do 2 eexists. split; [apply mul_op_Node|]. split; [apply num_arith | reflexivity].
  - do 2 eexists. split; [reflexivity|]. cbn. unfold py_mul; now rewrite !num_arith.
  - do 2 eexists. split; [reflexivity|]. split; reflexivity.
  - do 2 eexists. split; [reflexivity|]. cbn. unfold py_mul; now rewrite !num_arith.
  - do 2 eexists. split; [reflexivity|]. split; reflexivity.
  - intros Hpos. apply positive_not_zero in Hpos.
    cbn [call unpack1]. unfold bind at 1. cbn [ret prepend app].
    unfold py_inv. fold va. destruct (value a) as [f|f] eqn:Ea; cbn in va; subst va.
    + rewrite Hpos. do 2 eexists. split; [reflexivity|]. cbn.
      unfold py_mul; now rewrite num_arith.
    + do 2 eexists. split; [reflexivity|]. cbn. unfold py_mul; now rewrite num_arith.
Qed.

(** C6 (as amended): [log_op] has no domain check.  On every tracked
    operand, whatever its value, it returns a node that carries what the
    backend's logarithm returns for that value (for numpy, NaN below zero
    and minus infinity at zero) and appends the record of that node; it
    never raises. *)
Theorem log_op_never_raises : forall (a : Var) (s : session),
  log_op np_log (Node a) s
  = Ok (mkVar (NpFloat (np_log (num (value a)))) (v_ (S (id_counter s))))
       {| id_counter := S (id_counter s);
          Tape_list := Tape_list s
                       ++ [mkTape [name a] [v_ (S (id_counter s))] (log_backward a)] |}
       [].
Proof. reflexivity. Qed.

(** C8 (as amended): no operator lifts a raw number.  A call of an
    operator function with a raw number in either operand position
    raises [AttributeError] at the first access to [.value]; no identity
    is drawn, no record is appended and nothing is printed.  So does a
    method of class Variable handed a raw number, and with it an
    expression [v + x], [v - x], [v * x] with a tracked [v] on the left
    and a raw [x] on the right.  With the raw number on the left,
    [x + v], [x - v], [x * v], no code of the engine runs: Python raises
    [TypeError], the session untouched.  With tracked operands in every
    position the call returns a node that carries the closed-form
    value. *)
Theorem raw_operand_raises_AttributeError :
  forall (x : scalar) (o : operand) (v w : Var) (s : session),
    ((add_op (Literal x) o s = Raise AttributeError s []
      /\ add_op (Node v) (Literal x) s = Raise AttributeError s [])
     /\ (sub_op (Literal x) o s = Raise AttributeError s []
         /\ sub_op (Node v) (Literal x) s = Raise AttributeError s [])
     /\ (mul_op (Literal x) o s = Raise AttributeError s []
         /\ mul_op (Node v) (Literal x) s = Raise AttributeError s [])
     /\ sin_op np_sin (Literal x) s = Raise AttributeError s []
     /\ log_op np_log (Literal x) s = Raise AttributeError s [])
    /\ (Variable_add v (Literal x) s = Raise AttributeError s []
        /\ Variable_sub v (Literal x) s = Raise AttributeError s []
        /\ Variable_mul v (Literal x) s = Raise AttributeError s [])
    /\ (binary_operator Variable_add py_add (Node v) (Literal x) s
        = Dispatched (Raise AttributeError s [])
        /\ binary_operator Variable_sub py_sub (Node v) (Literal x) s
           = Dispatched (Raise AttributeError s [])
        /\ binary_operator Variable_mul py_mul (Node v) (Literal x) s
           = Dispatched (Raise AttributeError s []))
    /\ (binary_operator Variable_add py_add (Literal x) (Node v) s = TypeError s
        /\ binary_operator Variable_sub py_sub (Literal x) (Node v) s = TypeError s
        /\ binary_operator Variable_mul py_mul (Literal x) (Node v) s = TypeError s)
    /\ ((exists r s', add_op (Node v) (Node w) s = Ok r s' []
                      /\ value r = py_add (value v) (value w))
        /\ (exists r s', sub_op (Node v) (Node w) s = Ok r s' []
                         /\ value r = py_sub (value v) (value w))
        /\ (exists r s', mul_op (Node v) (Node w) s = Ok r s' []
                         /\ value r = py_mul (value v) (value w))
        /\ (exists r s', sin_op np_sin (Node v) s = Ok r s' []
                         /\ value r = NpFloat (np_sin (num (value v))))
        /\ (exists r s', log_op np_log (Node v) s = Ok r s' []
                         /\ value r = NpFloat (np_log (num (value v))))).
Proof.
  intros x o v w s.
  split; [repeat split|]. split; [repeat split|]. split; [repeat split|].
  split; [repeat split|].
  repeat split; do 2 eexists; (split; [reflexivity|]); reflexivity.
Qed.

End Operators.

(** * Sessions *)

Lemma NoDup_generated l : NoDup l -> NoDup (map v_ l).
Proof.
  induction 1 as [|k l Hk Hl IH]; cbn; constructor; [|exact IH].
  intros Hin. apply in_map_iff in Hin as (k' & E & Hk').
  apply v_inj in E. now subst.
Qed.

Lemma new_nodes_run vs : forall s,
  exists xs,
    new_nodes vs s
    = Ok xs {| id_counter := id_counter s + List.length vs;
               Tape_list := Tape_list s |} []
    /\ map name xs = map v_ (seq (S (id_counter s)) (List.length vs)).
Proof.
  induction vs as [|v vs IH]; intros s; cbn [new_nodes].
  - exists []. split; [|reflexivity]. unfold ret. cbn.
    rewrite Nat.add_0_r. now destruct s.
  - rewrite (bind_Ok _ _ _ _ _ _ (Variable_init_None v s)), prepend_nil.
    destruct (IH {| id_counter := S (id_counter s); Tape_list := Tape_list s |})
      as (xs & Hrun & Hnames).
    exists (mkVar v (v_ (S (id_counter s))) :: xs).
    rewrite (bind_Ok _ _ _ _ _ _ Hrun). cbn in *. split.
    + do 2 f_equal. lia.
    + now rewrite Hnames.
Qed.

(** C7 (as amended): [reset_tape] empties the log and puts the counter
    back to 0, so whatever follows it runs exactly as it would in a fresh
    session: a [grad] call sees no record of the old session, and the
    nodes created without a name after the reset are named v_1, v_2, ...
    again, whatever was created before -- the same identities the nodes
    of a fresh session receive.  The identities the counter gives out
    are pairwise distinct only as long as no reset intervenes: the nodes
    created in a row without a name from counter c receive
    v_{c+1}, v_{c+2}, ..., no two alike, different counter values giving
    different identities.  Names passed by the user do not come from the
    counter and are not covered. *)
Theorem reset_restarts_identities :
  (forall s, reset_tape s = Ok tt fresh_session [])
  /\ (forall (A : Type) (m : M A) s, (reset_tape;;; m) s = m fresh_session)
  /\ (forall m n, m <> n -> v_ m <> v_ n)
  /\ (forall vs s,
        exists xs,
          new_nodes vs s
          = Ok xs {| id_counter := id_counter s + List.length vs;
                     Tape_list := Tape_list s |} []
          /\ map name xs = map v_ (seq (S (id_counter s)) (List.length vs))
          /\ NoDup (map name xs))
  /\ (forall vs ws s,
        exists xs ys,
          new_nodes vs fresh_session
          = Ok xs {| id_counter := List.length vs; Tape_list := [] |} []
          /\ (reset_tape;;; new_nodes ws) s
             = Ok ys {| id_counter := List.length ws; Tape_list := [] |} []
          /\ map name xs = map v_ (seq 1 (List.length vs))
          /\ map name ys = map v_ (seq 1 (List.length ws))).
Proof.
  split; [reflexivity|]. split; [|split; [|split]].
  - intros A m s. unfold bind, reset_tape. apply prepend_nil.
  - intros m n Hmn H. apply Hmn, v_inj, H.
  - intros vs s. destruct (new_nodes_run vs s) as (xs & Hrun & Hnames).
    exists xs. split; [exact Hrun|]. split; [exact Hnames|].
    rewrite Hnames. apply NoDup_generated, seq_NoDup.
  - intros vs ws s.
    destruct (new_nodes_run vs fresh_session) as (xs & Hx & Hxn).
    destruct (new_nodes_run ws fresh_session) as (ys & Hy & Hyn).
    exists xs, ys. split; [exact Hx|]. split; [|split; assumption].
    unfold bind, reset_tape. rewrite prepend_nil. exact Hy.
Qed.

(** * The scenarios *)

Lemma build_diamond_run :
  build_diamond fresh_session = Ok diamond_z diamond_session [].
Proof. reflexivity. Qed.

Lemma build_dead_branch_run :
  build_dead_branch fresh_session = Ok dead_y dead_session [].
Proof. reflexivity. Qed.

(** Scenario 1 on any backend: [df/dx = y + 1/x = 5.5] and
    [df/dy = -cos(5) + x]. *)
Lemma scenario_1_gradients np_sin np_cos np_log :
  exists s out,
    scenario_1 np_sin np_cos np_log fresh_session
    = Ok (Some (PyFloat 5.5), Some (NpFloat (-1 * np_cos 5 + 2)%float)) s out.
Proof. do 2 eexists. vm_compute. reflexivity. Qed.

(** The scenarios run alike on every backend. *)
Lemma diamond_any_backend np_cos results :
  grad np_cos diamond_z results diamond_session
  = grad not_called diamond_z [] diamond_session.
Proof. reflexivity. Qed.

Lemma dead_branch_any_backend np_cos results :
  grad np_cos dead_y results dead_session
  = grad not_called dead_y [] dead_session.
Proof. reflexivity. Qed.

(** C1, counterexample: on [z = x + x] the call [grad(z, [x])] returns
    [None], not a gradient map. *)
Lemma grad_returns_None_on_diamond :
  exists s out,
    grad not_called diamond_z [diamond_x] diamond_session = Ok PyNone s out
    /\ forall items,
         grad not_called diamond_z [diamond_x] diamond_session <> Ok (PyDict items) s out.
Proof.
  do 2 eexists. split; [vm_compute; reflexivity | discriminate].
Qed.

(** C2, counterexample: with the unused [w] on the log, [grad(y, [x])]
    raises [KeyError] for the identity of [w], at the first record it
    visits; no gradient of [x] is ever computed. *)
Lemma dead_branch_raises_KeyError :
  grad not_called dead_y [dead_x] dead_session
  = Raise (KeyError "v_5") (after_seed dead_session) [print_tape record_w].
Proof. reflexivity. Qed.

Lemma dead_record_raises_KeyError_witness :
  grad not_called dead_y [dead_x] dead_session
  = Raise (KeyError "v_5") (after_seed dead_session) ([] ++ [print_tape record_w]).
Proof.
  apply (dead_record_raises_KeyError not_called dead_y [dead_x] dead_session
           [] record_w [record_y] (seed dead_y dead_session)); reflexivity.
Defined.

(** C3, an instance: on [z = x + x] the two gradients delivered to [x]
    are 1.0 and 1.0, and the entry of [x] is their sum, 2.0. *)
Lemma accumulation_law_witness :
  exists dl_d s out pairs,
    grad_dl_d not_called diamond_z diamond_session = Ok dl_d s out
    /\ map fst pairs = ["v_1"; "v_1"]%string
    /\ delivered_to "v_1" pairs = [PyFloat 1; PyFloat 1]
    /\ option_map value (dict_get "v_1" dl_d) = Some (PyFloat 2).
Proof.
  destruct (grad_dl_d not_called diamond_z diamond_session)
    as [dl_d s out | e s out] eqn:Hrun; [|vm_compute in Hrun; discriminate Hrun].
  destruct (proj1 (accumulation_law not_called) diamond_z diamond_session
              dl_d s out Hrun)
    as (pairs & Hp & Hin & Hlaw).
  exists dl_d, s, out, pairs. split; [reflexivity|].
  split; [apply Hin; repeat constructor|].
  assert (E : delivered_to "v_1" pairs = [PyFloat 1; PyFloat 1]).
  { revert Hp. vm_compute. now intros [= <- _ _]. }
  split; [exact E|]. now rewrite Hlaw, E.
Defined.

(** C4, an instance: the backward rule of [log] at [a = 2.0] with an
    incoming gradient of 1.0 returns 0.5. *)
Lemma operator_contracts_witness :
  (0 <? 2)%float = true
  /\ propagates not_called (log_backward (mkVar (PyFloat 2) "v_1"))
       (mkVar (PyFloat 1) "v_3") fresh_session [0.5%float].
Proof.
  split; [reflexivity|].
  apply (operator_contracts not_called not_called not_called
           (mkVar (PyFloat 2) "v_1") (mkVar (PyFloat 2) "v_1")
           (mkVar (PyFloat 1) "v_3") fresh_session fresh_session).
  reflexivity.
Defined.

(** C5, counterexample: [grad(z, [x])] on [z = x + x] leaves a log of
    four records where there was one, and a second call on that log
    raises [KeyError] instead of recomputing the gradients. *)
Lemma grad_changes_the_log :
  Tape_list (final (grad not_called diamond_z [diamond_x] diamond_session))
  <> Tape_list diamond_session
  /\ exists s out,
       (grad not_called diamond_z [diamond_x];;; grad not_called diamond_z [diamond_x])
         diamond_session
       = Raise (KeyError "v_8") s out.
Proof.
  split; [vm_compute; discriminate|].
  do 2 eexists. vm_compute. reflexivity.
Qed.

Lemma grad_appends_to_log_witness :
  2 * List.length (Tape_list diamond_session)
  <= List.length
       (Tape_list (final (grad not_called diamond_z [diamond_x] diamond_session))).
Proof.
  apply (proj2 (grad_appends_to_log not_called diamond_z [diamond_x] diamond_session)
           PyNone _
           (printed (grad not_called diamond_z [diamond_x] diamond_session))).
  vm_compute. reflexivity.
Defined.

(** C6, counterexample: [log(x)] at [x = -1.0] raises nothing; it
    returns a node, on every backend. *)
Lemma log_op_accepts_minus_one :
  ~ (forall (np_log : float -> float) (a : Var) (s : session),
       (num (value a) <=? 0)%float = true ->
       exists e s' out, log_op np_log (Node a) s = Raise e s' out).
Proof.
  intros H.
  destruct (H (fun x => x) (mkVar (PyFloat (-1)) "v_1")
              {| id_counter := 1; Tape_list := [] |} eq_refl)
    as (e & s' & out & E).
  discriminate E.
Qed.

(** C7, counterexample: a node created before [reset_tape] and a node
    created after it carry the same identity. *)
Lemma identities_collide_across_reset :
  exists x y s,
    across_reset fresh_session = Ok (x, y) s []
    /\ name x = "v_1"%string /\ name y = "v_1"%string.
Proof. do 3 eexists. split; [reflexivity|]. split; reflexivity. Qed.

Lemma reset_restarts_identities_witness : v_ 1 <> v_ 2.
Proof.
  apply (proj1 (proj2 (proj2 reset_restarts_identities)) 1 2). discriminate.
Defined.

(** C8, counterexample: [x + 2.0] with a tracked [x] and a raw [2.0]
    raises [AttributeError]; nothing is lifted. *)
Lemma add_raw_number_raises :
  add_op (Node diamond_x) (Literal (PyFloat 2))
         {| id_counter := 1; Tape_list := [] |}
  = Raise AttributeError {| id_counter := 1; Tape_list := [] |} [].
Proof. reflexivity. Qed.

(** C10, counterexample: on the log of the dead-branch scenario the pass
    visits the record of [w] and stops; the record of [y] is on the log
    but is not visited. *)
Lemma dead_branch_cuts_pass_short :
  visited (printed (grad not_called dead_y [dead_x] dead_session)) = [record_w]
  /\ rev (Tape_list dead_session) = [record_w; record_y].
Proof. split; reflexivity. Qed.

Lemma grad_traverses_snapshot_witness :
  visited (printed (grad not_called diamond_z [diamond_x] diamond_session))
  = rev (Tape_list diamond_session).
Proof.
  apply (proj2 (proj2 (grad_traverses_snapshot not_called diamond_z [diamond_x]
                         diamond_session))
           PyNone
           (final (grad not_called diamond_z [diamond_x] diamond_session))).
  vm_compute. reflexivity.
Defined.

(** * Further properties *)

(** ** Output ids stay distinct *)

Lemma fresh_records_bounds lo app hi : fresh_records lo app hi -> lo <= hi.
Proof.
  revert lo. induction app as [|t app IH]; intros lo; cbn; [easy|].
  intros (k & _ & Hk & H). apply IH in H. lia.
Qed.

Lemma fresh_records_weaken lo lo' app hi hi' :
  lo' <= lo -> hi <= hi' -> fresh_records lo app hi -> fresh_records lo' app hi'.
Proof.
  revert lo lo'. induction app as [|t app IH]; intros lo lo' Hlo Hhi; cbn.
  - lia.
  - intros (k & Ho & Hk & H). exists k. repeat split; [exact Ho | lia |].
    now apply (IH k k).
Qed.

Lemma fresh_records_app lo app1 mid app2 hi :
  fresh_records lo app1 mid -> fresh_records mid app2 hi ->
  fresh_records lo (app1 ++ app2) hi.
Proof.
  revert lo. induction app1 as [|t app1 IH]; intros lo; cbn.
  - intros H1 H2. now apply (fresh_records_weaken mid lo app2 hi hi).
  - intros (k & Ho & Hk & H1) H2. exists k. repeat split; auto.
Qed.


Lemma fresh_records_outputs lo app hi :
  fresh_records lo app hi ->
  Forall (fun o => exists k, o = v_ k /\ lo < k <= hi)
         (List.concat (map outputs app)).
Proof.
  revert lo. induction app as [|t app IH]; intros lo; cbn; [constructor|].
  intros (k & Ho & Hk & H). rewrite Ho. cbn.
  pose proof (fresh_records_bounds _ _ _ H) as Hb.
  constructor; [exists k; split; [reflexivity | lia]|].
  eapply Forall_impl; [|apply (IH k H)].
  cbn. intros o (k' & -> & Hk'). exists k'. split; [reflexivity | lia].
Qed.

Lemma fresh_records_NoDup lo app hi :
  fresh_records lo app hi -> NoDup (List.concat (map outputs app)).
Proof.
  revert lo. induction app as [|t app IH]; intros lo; cbn; [constructor|].
  intros (k & Ho & Hk & H). rewrite Ho. cbn. constructor; [|now apply (IH k)].
  intros Hin. apply fresh_records_outputs in H.
  rewrite Forall_forall in H. destruct (H _ Hin) as (k' & E & Hk').
  apply v_inj in E. lia.
Qed.

Lemma appends_fresh_refl s : appends_fresh s s.
Proof. exists []. split; [now rewrite app_nil_r | cbn; lia]. Qed.

Lemma appends_fresh_trans s1 s2 s3 :
  appends_fresh s1 s2 -> appends_fresh s2 s3 -> appends_fresh s1 s3.
Proof.
  intros (a1 & E1 & F1) (a2 & E2 & F2). exists (a1 ++ a2). split.
  - now rewrite E2, E1, app_assoc.
  - eapply fresh_records_app; eassumption.
Qed.

Lemma numbered_appends_fresh s s' :
  numbered s -> appends_fresh s s' -> numbered s'.
Proof.
  unfold numbered. intros H (app & E & F). rewrite E.
  eapply fresh_records_app; eassumption.
Qed.

Lemma draws_fresh_ret {A} (a : A) : draws_fresh (ret a).
Proof. intros s. apply appends_fresh_refl. Qed.

Lemma draws_fresh_raise {A} e : draws_fresh (@raise A e).
Proof. intros s. apply appends_fresh_refl. Qed.

Lemma draws_fresh_print l : draws_fresh (print l).
Proof. intros s. apply appends_fresh_refl. Qed.

Lemma draws_fresh_bind {A B} (m : M A) (f : A -> M B) :
  draws_fresh m -> (forall a, draws_fresh (f a)) -> draws_fresh (bind m f).
Proof.
  intros Hm Hf s. unfold bind. specialize (Hm s).
  destruct (m s) as [a s1 o1 | e s1 o1]; cbn in *; [|assumption].
  rewrite final_prepend. eapply appends_fresh_trans; [eassumption | apply Hf].
Qed.

Lemma draws_fresh_id_generator : draws_fresh id_generator.
Proof. intros s. exists []. split; [cbn; now rewrite app_nil_r | cbn; lia]. Qed.

(** What every successful operator call does to the session. *)
Lemma appends_fresh_record s ins bw :
  appends_fresh s
    {| id_counter := S (id_counter s);
       Tape_list := Tape_list s ++ [mkTape ins [v_ (S (id_counter s))] bw] |}.
Proof.
  eexists. split; [reflexivity|]. cbn. exists (S (id_counter s)).
  repeat split; lia.
Qed.

Create HintDb freshness.
#[local] Hint Resolve draws_fresh_ret draws_fresh_raise draws_fresh_print
  draws_fresh_id_generator : freshness.

Ltac freshness :=
  repeat first
    [ solve [auto with freshness]
    | apply draws_fresh_bind; [| intros ?] ].

Lemma draws_fresh_Variable_init v n : draws_fresh (Variable_init v n).
Proof.
  unfold Variable_init. destruct n as [n|]; [destruct (String.eqb n "")|];
    freshness.
Qed.
#[local] Hint Resolve draws_fresh_Variable_init : freshness.

Lemma draws_fresh_add_op a b : draws_fresh (add_op a b).
Proof.
  intros s. destruct a as [a|x]; [destruct b as [b|y]|];
    try apply appends_fresh_refl. exact (appends_fresh_record s _ _).
Qed.

Lemma draws_fresh_mul_op a b : draws_fresh (mul_op a b).
Proof.
  intros s. destruct a as [a|x]; [destruct b as [b|y]|];
    try apply appends_fresh_refl. exact (appends_fresh_record s _ _).
Qed.

Lemma draws_fresh_sub_op a b : draws_fresh (sub_op a b).
Proof.
  intros s. destruct a as [a|x]; [destruct b as [b|y]|];
    try apply appends_fresh_refl. exact (appends_fresh_record s _ _).
Qed.

Lemma draws_fresh_sin_op np_sin a : draws_fresh (sin_op np_sin a).
Proof.
  intros s. destruct a as [a|x];
    [exact (appends_fresh_record s _ _) | apply appends_fresh_refl].
Qed.

Lemma draws_fresh_log_op np_log a : draws_fresh (log_op np_log a).
Proof.
  intros s. destruct a as [a|x];
    [exact (appends_fresh_record s _ _) | apply appends_fresh_refl].
Qed.
#[local] Hint Resolve draws_fresh_add_op draws_fresh_mul_op draws_fresh_sub_op
  draws_fresh_sin_op draws_fresh_log_op : freshness.

Lemma draws_fresh_unpack1 l : draws_fresh (unpack1 l).
Proof. destruct l as [|x [|y l]]; cbn; freshness. Qed.
#[local] Hint Resolve draws_fresh_unpack1 : freshness.

Lemma draws_fresh_grad_outputs outs d : draws_fresh (grad_outputs outs d).
Proof.
  induction outs as [|o outs IH]; cbn; [freshness|].
  destruct (dict_get o d); freshness.
Qed.
#[local] Hint Resolve draws_fresh_grad_outputs : freshness.

Lemma draws_fresh_accumulate pairs : forall d, draws_fresh (accumulate pairs d).
Proof.
  induction pairs as [|[input g] pairs IH]; intros d; cbn; [freshness|].
  destruct (dict_get input d); freshness.
Qed.
#[local] Hint Resolve draws_fresh_accumulate : freshness.

Lemma draws_fresh_print_items l items : draws_fresh (print_items l items).
Proof. induction items as [|[k v] items IH]; cbn; freshness. Qed.
#[local] Hint Resolve draws_fresh_print_items : freshness.

Lemma draws_fresh_call np_cos b gs : draws_fresh (call np_cos b gs).
Proof.
  destruct b; cbn [call]; freshness.
  destruct (py_inv (value self)); freshness.
Qed.
#[local] Hint Resolve draws_fresh_call : freshness.

Lemma draws_fresh_visit np_cos t d : draws_fresh (visit np_cos t d).
Proof. unfold visit, contributions. freshness. Qed.
#[local] Hint Resolve draws_fresh_visit : freshness.

Lemma draws_fresh_reversed_loop np_cos n :
  forall d, draws_fresh (reversed_loop np_cos n d).
Proof.
  induction n as [|n IH]; intros d; cbn [reversed_loop]; [freshness|].
  intros s. destruct (nth_error (Tape_list s) n) as [t|].
  - apply (draws_fresh_bind (visit np_cos t d) (reversed_loop np_cos n));
      [freshness | exact IH].
  - apply appends_fresh_refl.
Qed.

Lemma draws_fresh_grad_dl_d np_cos l : draws_fresh (grad_dl_d np_cos l).
Proof.
  unfold grad_dl_d. apply draws_fresh_bind; [freshness|].
  intros sd s. apply draws_fresh_reversed_loop.
Qed.
#[local] Hint Resolve draws_fresh_grad_dl_d : freshness.

Lemma draws_fresh_grad np_cos l results : draws_fresh (grad np_cos l results).
Proof. unfold grad. freshness. Qed.

(** X1: a log made by the operators stays one.  If every record of the
    log has a single output id, a generated identity, and the counter
    values of these identities increase along the log and do not exceed
    the counter, then no two records have the same output id, and the
    same holds of the log after creating a variable, after any operator
    call (returned or raised), after any [grad] call (returned or raised)
    and after [reset_tape]. *)
Theorem numbered_log_is_kept :
  forall (np_sin np_cos np_log : float -> float) (s : session),
    numbered s ->
    NoDup (List.concat (map outputs (Tape_list s)))
    /\ (forall v n, numbered (final (Variable_init v n s)))
    /\ (forall a b, numbered (final (add_op a b s))
                    /\ numbered (final (sub_op a b s))
                    /\ numbered (final (mul_op a b s)))
    /\ (forall a, numbered (final (sin_op np_sin a s))
                  /\ numbered (final (log_op np_log a s)))
    /\ (forall l results, numbered (final (grad np_cos l results s)))
    /\ numbered (final (reset_tape s)).
Proof.
  intros np_sin np_cos np_log s H.
  split; [exact (fresh_records_NoDup _ _ _ H)|].
  split; [intros v n; eapply numbered_appends_fresh;
          [exact H | apply draws_fresh_Variable_init]|].
  split; [intros a b; repeat split; (eapply numbered_appends_fresh; [exact H|]);
          [apply draws_fresh_add_op | apply draws_fresh_sub_op
          | apply draws_fresh_mul_op]|].
  split; [intros a; split; (eapply numbered_appends_fresh; [exact H|]);
          [apply draws_fresh_sin_op | apply draws_fresh_log_op]|].
  split; [intros l results; eapply numbered_appends_fresh;
          [exact H | apply draws_fresh_grad]|].
  cbn. lia.
Qed.

Lemma first_missing_None outs d :
  first_missing outs d = None -> Forall (fun o => dict_get o d <> None) outs.
Proof.
  induction outs as [|o outs IH]; cbn; [constructor|].
  destruct (dict_get o d) eqn:E; [|discriminate].
  intros H. constructor; [now rewrite E | auto].
Qed.

(** X2: [grad] can only return for the node computed last.  If a call
    returns on a non-empty log, every output id of the most recent record
    is the id of the terminal node; for any other terminal the call
    raises at the first record it visits.  On an empty log every call
    returns, whatever the terminal: it prints the seed line and leaves
    the log empty. *)
Theorem grad_needs_the_last_node :
  forall (np_cos : float -> float) (l : Var) (results : list Var),
    (forall s earlier t v s' out,
       Tape_list s = earlier ++ [t] ->
       grad np_cos l results s = Ok v s' out ->
       Forall (fun o => o = name l) (outputs t))
    /\ (forall c,
          grad np_cos l results {| id_counter := c; Tape_list := [] |}
          = Ok PyNone {| id_counter := S c; Tape_list := [] |}
               [print_grad (name l) (name l) (PyFloat 1)]).
Proof.
  intros np_cos l results. split; [|reflexivity].
  intros s earlier t v s' out Hlog.
  rewrite grad_run, grad_dl_d_snapshot, Hlog, rev_app_distr. cbn [rev app for_each].
  destruct (first_missing (outputs t) (seed l s)) as [o|] eqn:Hm.
  - rewrite (bind_Raise _ _ _ _ _ _ (visit_missing np_cos t _ o _ Hm)).
    discriminate.
  - intros _. apply first_missing_None in Hm.
    eapply Forall_impl; [|exact Hm]. cbn. intros o.
    destruct (String.eqb_spec o (name l)); [easy | now intros []].
Qed.


(** ** What a call to [grad] can raise *)

Lemma bind_Raise_inv {A B} (m : M A) (f : A -> M B) s e s' o :
  bind m f s = Raise e s' o ->
  m s = Raise e s' o
  \/ exists a s1 o1 o2, m s = Ok a s1 o1 /\ f a s1 = Raise e s' o2 /\ o = o1 ++ o2.
Proof.
  unfold bind. destruct (m s) as [a s1 o1 | e1 s1 o1].
  2:{ intros [= <- <- <-]. now left. }
  destruct (f a s1) as [b s2 o2 | e2 s2 o2] eqn:E; cbn; [discriminate|].
  intros [= <- <- <-]. right. now exists a, s1, o1, o2.
Qed.

Lemma grad_outputs_Raise outs d s e s' o :
  grad_outputs outs d s = Raise e s' o ->
  exists x, In x outs /\ dict_get x d = None /\ e = KeyError x.
Proof.
  induction outs as [|x outs IH]; cbn; [discriminate|].
  destruct (dict_get x d) eqn:E.
  - intros H. apply bind_Raise_inv in H as [H | (gs & s1 & o1 & o2 & _ & H & _)];
      [|discriminate].
    destruct (IH H) as (y & Hin & Hy). exists y. split; [now right | exact Hy].
  - intros [= <- _ _]. exists x. split; [now left | easy].
Qed.

Lemma grad_outputs_Ok outs d s gs s' o :
  grad_outputs outs d s = Ok gs s' o -> List.length gs = List.length outs.
Proof.
  revert gs s' o. induction outs as [|x outs IH]; intros gs s' o; cbn.
  - now intros [= <- _ _].
  - destruct (dict_get x d); [|discriminate]. intros H.
    apply bind_Ok_inv in H as (gs' & s1 & o1 & o2 & H & [= <- _ _] & _).
    cbn. f_equal. eapply IH, H.
Qed.

Lemma call_Raise np_cos b gs s e s' o :
  call np_cos b gs s = Raise e s' o ->
  (e = ValueError /\ List.length gs <> 1)
  \/ (e = ZeroDivisionError
      /\ exists a f, b = log_backward a /\ value a = PyFloat f
                     /\ (f =? 0)%float = true).
Proof.
  destruct b; destruct gs as [|g [|g' gs]]; cbn; try discriminate;
    try (intros [= <- _ _]; left; split; [reflexivity | cbn; lia]).
  unfold py_inv. destruct (value self) as [f|f] eqn:Ev; [|discriminate].
  destruct (f =? 0)%float eqn:Ef; [|discriminate].
  intros [= <- _ _]. right. split; [reflexivity|]. now exists self, f.
Qed.

Lemma visit_Raise np_cos t d s e s' o :
  visit np_cos t d s = Raise e s' o ->
  (exists x, In x (outputs t) /\ dict_get x d = None /\ e = KeyError x)
  \/ (e = ValueError /\ List.length (outputs t) <> 1)
  \/ (e = ZeroDivisionError
      /\ exists a f, propagate t = log_backward a /\ value a = PyFloat f
                     /\ (f =? 0)%float = true).
Proof.
  unfold visit. intros H.
  apply bind_Raise_inv in H as [H | (pairs & s1 & o1 & o2 & _ & H & _)].
  - unfold contributions in H.
    apply bind_Raise_inv in H as [H | ([] & s1 & o1 & o2 & _ & H & _)];
      [discriminate|].
    apply bind_Raise_inv in H as [H | (gs & s2 & o3 & o4 & Hg & H & _)].
    + left. eapply grad_outputs_Raise, H.
    + apply grad_outputs_Ok in Hg.
      apply bind_Raise_inv in H as [H | (gi & s3 & o5 & o6 & _ & H & _)];
        [|discriminate].
      right. apply call_Raise in H as [[-> Hl] | [-> Hz]]; [left | right].
      * split; [reflexivity | now rewrite <- Hg].
      * split; [reflexivity | exact Hz].
  - destruct (accumulate_law pairs d s1) as (d' & s2 & E & _).
    rewrite E in H. discriminate.
Qed.

(** X4: the exceptions of [grad].  A call that raises does so at a record
    of the log, in one of three ways: [KeyError] for an output id of the
    record; [ZeroDivisionError], and then the record is that of a
    logarithm whose operand is a Python float zero; or [ValueError], and
    then the record does not have exactly one output id, which no record
    made by an operator does.  No call raises [AttributeError]. *)
Theorem grad_raises_at_a_record :
  forall (np_cos : float -> float) (l : Var) (results : list Var)
         (s : session) e s' out,
    grad np_cos l results s = Raise e s' out ->
    exists t, In t (Tape_list s) /\
      ((exists x, In x (outputs t) /\ e = KeyError x)
       \/ (e = ValueError /\ List.length (outputs t) <> 1)
       \/ (e = ZeroDivisionError
           /\ exists a f, propagate t = log_backward a /\ value a = PyFloat f
                          /\ (f =? 0)%float = true)).
Proof.
  intros np_cos l results s e s' out.
  rewrite grad_run, grad_dl_d_snapshot.
  destruct (for_each np_cos (rev (Tape_list s)) (seed l s) (after_seed s))
    as [d s1 o1 | e1 s1 o1] eqn:E; [discriminate|].
  intros [= <- _ _].
  assert (H : exists t, In t (rev (Tape_list s)) /\
            ((exists x, In x (outputs t) /\ e1 = KeyError x)
             \/ (e1 = ValueError /\ List.length (outputs t) <> 1)
             \/ (e1 = ZeroDivisionError
                 /\ exists a f, propagate t = log_backward a
                                /\ value a = PyFloat f
                                /\ (f =? 0)%float = true))).
  { revert E. generalize (seed l s) (after_seed s) s1 o1.
    induction (rev (Tape_list s)) as [|t ts IH]; intros d s0 s3 o4; cbn [for_each];
      [discriminate|].
    intros H. apply bind_Raise_inv in H as [H | (d' & s2 & o2 & o3 & _ & H & _)].
    - exists t. split; [now left|].
      apply visit_Raise in H as [(x & Hx & _ & ->) | [H | H]];
        [left; now exists x | right; now left | right; now right].
    - destruct (IH _ _ _ _ H) as (t' & Hin & Ht'). exists t'.
      split; [now right | exact Ht']. }
  destruct H as (t & Hin & Ht). exists t. split; [now apply in_rev | exact Ht].
Qed.

(** ** The gradient map and the inner loop *)

Lemma dict_get_In k d : dict_get k d <> None <-> In k (map fst d).
Proof.
  induction d as [|[k' v'] d IH]; cbn; [easy|].
  destruct (String.eqb_spec k k') as [->|Hk].
  - split; [now left | easy].
  - rewrite IH. split; [now right | intros [E|H]; [now subst | exact H]].
Qed.

Lemma dict_set_keys k v d :
  map fst (dict_set k v d)
  = match dict_get k d with
    | Some _ => map fst d
    | None => map fst d ++ [k]
    end.
Proof.
  induction d as [|[k' v'] d IH]; cbn; [reflexivity|].
  destruct (String.eqb k k'); cbn; [reflexivity|].
  rewrite IH. now destruct (dict_get k d).
Qed.

Lemma dict_set_NoDup k v d : NoDup (map fst d) -> NoDup (map fst (dict_set k v d)).
Proof.
  intros H. rewrite dict_set_keys. destruct (dict_get k d) eqn:E; [exact H|].
  apply NoDup_app; [exact H | repeat constructor; easy |].
  intros x Hx [<-|[]]. apply dict_get_In in Hx. now rewrite E in Hx.
Qed.

Lemma accumulate_effects :
  forall (pairs : list (string * Var)) (d : dict) (s : session),
  exists d' s',
    accumulate pairs d s = Ok d' s' []
    /\ List.length (Tape_list s') + List.length d'
       = List.length (Tape_list s) + List.length d + List.length pairs
    /\ id_counter s' + List.length d'
       = id_counter s + List.length d + List.length pairs
    /\ (exists new, map fst d' = map fst d ++ new)
    /\ (NoDup (map fst d) -> NoDup (map fst d'))
    /\ (forall n, In n (map fst d') <-> In n (map fst d) \/ In n (map fst pairs)).
Proof.
  induction pairs as [|[input g] pairs IH]; intros d s; cbn [accumulate].
  - exists d, s. split; [reflexivity|]. cbn.
    split; [lia|]. split; [lia|].
    split; [exists []; now rewrite app_nil_r|]. split; [easy | tauto].
  - pose proof (dict_set_keys input) as Hkeys.
    pose proof (dict_get_In input d) as Hin.
    destruct (dict_get input d) as [cur|] eqn:Ecur.
    + rewrite (bind_Ok _ _ _ _ _ _ (add_op_Node cur g s)), prepend_nil.
      match goal with |- context [accumulate pairs ?d1 ?s1] =>
        destruct (IH d1 s1) as (d' & s' & Hrun & Ht & Hc & (new & Hn) & Hnd & Hk);
        specialize (Hkeys (mkVar (py_add (value cur) (value g))
                                 (v_ (S (id_counter s)))) d)
      end.
      rewrite Ecur in Hkeys.
      assert (Hl : List.length (dict_set input
                     (mkVar (py_add (value cur) (value g)) (v_ (S (id_counter s)))) d)
                   = List.length d)
        by now rewrite <- (length_map fst), Hkeys, length_map.
      exists d', s'. split; [exact Hrun|]. cbn in Ht, Hc.
      rewrite length_app in Ht. cbn in Ht. rewrite Hl in Ht, Hc.
      rewrite Hkeys in Hn, Hnd. cbn [List.length map fst].
      split; [lia|]. split; [lia|]. split; [now exists new|].
      split; [exact Hnd|]. intros n. rewrite Hk, Hkeys. cbn [In]. split; [tauto|].
      intros [H|[<-|H]]; [tauto | left; apply Hin; easy | tauto].
    + destruct (IH (dict_set input g d) s)
        as (d' & s' & Hrun & Ht & Hc & (new & Hn) & Hnd & Hk).
      specialize (Hkeys g d). rewrite Ecur in Hkeys.
      assert (Hl : List.length (dict_set input g d) = S (List.length d)).
      { rewrite <- (length_map fst), Hkeys, length_app, length_map. cbn. lia. }
      exists d', s'. split; [exact Hrun|].
      rewrite Hl in Ht, Hc. cbn [List.length map fst].
      split; [lia|]. split; [lia|].
      split; [exists (input :: new); now rewrite Hn, Hkeys, <- app_assoc|].
      split; [intros H; apply Hnd; now apply dict_set_NoDup|].
      intros n. rewrite Hk, Hkeys, in_app_iff. cbn. tauto.
Qed.

(** X5: the inner loop of [grad] never raises and prints nothing, and
    every (input id, gradient) pair it is given does exactly one of two
    things: it inserts a new key at the end of the map, or it draws one
    identity and appends one record to the log (the addition behind
    [+=]).  The keys already in the map keep their places, keys stay
    distinct, and the keys at the end are the old keys and the input ids
    of the pairs. *)
Theorem accumulate_inserts_or_appends :
  forall (pairs : list (string * Var)) (d : dict) (s : session),
  exists d' s',
    accumulate pairs d s = Ok d' s' []
    /\ List.length (Tape_list s') + List.length d'
       = List.length (Tape_list s) + List.length d + List.length pairs
    /\ id_counter s' + List.length d'
       = id_counter s + List.length d + List.length pairs
    /\ (exists new, map fst d' = map fst d ++ new)
    /\ (NoDup (map fst d) -> NoDup (map fst d'))
    /\ (forall n, In n (map fst d') <-> In n (map fst d) \/ In n (map fst pairs)).
Proof. exact accumulate_effects. Qed.

Lemma total_Some a gs : total (Some a) gs <> None.
Proof.
  revert a. induction gs as [|g gs IH]; intros a; cbn; [easy | apply IH].
Qed.

Lemma total_None start gs : total start gs = None <-> start = None /\ gs = [].
Proof.
  split.
  - destruct gs as [|g gs]; cbn; [easy|].
    intros H. now apply total_Some in H.
  - now intros [-> ->].
Qed.

Lemma delivered_to_nil n pairs :
  delivered_to n pairs = [] <-> ~ In n (map fst pairs).
Proof.
  induction pairs as [|[k g] pairs IH]; [easy|].
  rewrite delivered_to_cons. cbn.
  destruct (String.eqb_spec n k) as [->|Hk].
  - split; [discriminate | intros H; exfalso; apply H; now left].
  - rewrite IH. split; [intros H [E|H']; [now subst | easy] | tauto].
Qed.

Lemma for_each_keys np_cos ts : forall d s d' s' o,
  for_each np_cos ts d s = Ok d' s' o ->
  o = map print_tape ts
  /\ (exists new, map fst d' = map fst d ++ new)
  /\ (NoDup (map fst d) -> NoDup (map fst d')).
Proof.
  induction ts as [|t ts IH]; intros d s d' s' o; cbn [for_each].
  - intros [= <- _ <-]. split; [reflexivity|].
    split; [exists []; now rewrite app_nil_r | easy].
  - intros H. apply bind_Ok_inv in H as (d1 & s1 & o1 & o2 & Hv & H & ->).
    pose proof (visit_printed np_cos t d s) as Hp. rewrite Hv in Hp. cbn in Hp.
    subst o1. unfold visit in Hv.
    apply bind_Ok_inv in Hv as (pairs & s0 & ? & ? & _ & Ha & _).
    destruct (accumulate_effects pairs d s0)
      as (d1' & s1' & E & _ & _ & (new1 & Hn1) & Hnd1 & _).
    rewrite E in Ha. injection Ha as <- <-.
    apply IH in H as (-> & (new2 & Hn2) & Hnd2).
    split; [reflexivity|]. split; [|auto].
    exists (new1 ++ new2). now rewrite Hn2, Hn1, app_assoc.
Qed.

(** X6: the lines [grad] prints.  A call that returns has printed every
    record of the log, last one first, and then one line per key of the
    gradient map: the terminal first, no id twice.  On a log of records
    made by the operators the ids printed are the terminal and the input
    ids of the records of the log, and no other. *)
Theorem grad_prints_each_id_once :
  forall (np_cos : float -> float) (l : Var) (results : list Var)
         (s : session) v s' out,
    grad np_cos l results s = Ok v s' out ->
    exists dl_d rest,
      out = map print_tape (rev (Tape_list s)) ++ grad_lines l dl_d
      /\ map fst dl_d = name l :: rest
      /\ NoDup (name l :: rest)
      /\ (Forall well_formed (Tape_list s) ->
          forall n, In n (name l :: rest)
                    <-> n = name l
                        \/ In n (List.concat (map inputs (Tape_list s)))).
Proof.
  intros np_cos l results s v s' out.
  rewrite grad_run, grad_dl_d_snapshot.
  destruct (for_each np_cos (rev (Tape_list s)) (seed l s) (after_seed s))
    as [d s1 o1 | e s1 o1] eqn:E; [|discriminate].
  intros [= _ _ <-].
  destruct (for_each_keys _ _ _ _ _ _ _ E) as (-> & (rest & Hk) & Hnd).
  change (map fst (seed l s) ++ rest) with (name l :: rest) in Hk.
  destruct (for_each_law _ _ _ _ _ _ _ E) as (pairs & Hp & Hlaw).
  exists d, rest. split; [reflexivity|]. split; [exact Hk|].
  split; [rewrite <- Hk; apply Hnd; repeat constructor; easy|].
  intros Hwf n. rewrite <- Hk, <- dict_get_In.
  pose proof (all_contributions_inputs np_cos _ _ _ _ _ _
                (Forall_rev Hwf) Hp) as Hin.
  assert (Hd : dict_get n d = None
               <-> n <> name l /\ ~ In n (map fst pairs)).
  { specialize (Hlaw n). destruct (dict_get n d) eqn:Ed; cbn in Hlaw.
    - split; [discriminate|]. intros [Hn Hni].
      symmetry in Hlaw. apply delivered_to_nil in Hni. rewrite Hni in Hlaw.
      destruct (String.eqb_spec n (name l)); [easy | discriminate].
    - symmetry in Hlaw. apply total_None in Hlaw as [Hs Hdel].
      apply delivered_to_nil in Hdel.
      destruct (String.eqb_spec n (name l)); [discriminate | easy]. }
  rewrite Hin in Hd.
  assert (Hrev : In n (List.concat (map inputs (rev (Tape_list s))))
                 <-> In n (List.concat (map inputs (Tape_list s)))).
  { rewrite !in_concat. split; intros (x & Hx & Hn); exists x;
      (split; [|exact Hn]); rewrite in_map_iff in *;
      destruct Hx as (t & <- & Ht); exists t; (split; [reflexivity|]);
      [now apply in_rev | now apply in_rev in Ht]. }
  rewrite Hrev in Hd.
  destruct (String.eqb_spec n (name l)) as [->|Hn].
  - split; [now left|]. intros _ H. apply Hd in H. now destruct H.
  - split.
    + intros H. right.
      destruct (in_dec string_dec n (List.concat (map inputs (Tape_list s))))
        as [Hi|Hi]; [exact Hi|]. exfalso. apply H, Hd. easy.
    + intros [->|Hi] H; [easy|]. apply Hd in H. now destruct H.
Qed.

(** ** Gradients of whole expressions *)

Local Open Scope Z_scope.

Lemma SFmul_unit_l (sy : bool) (x : spec_float) :
  valid_binary prec emax x = true ->
  SFmul prec emax (S754_finite sy 4503599627370496 (-52)) x
  = if sy then SFopp x else x.
Proof.
  destruct x as [sx | sx | | sx mx ex]; cbn [SFmul SFopp]; intros Hv;
    [destruct sx, sy; reflexivity | destruct sx, sy; reflexivity
    | destruct sy; reflexivity | ].
  cbn [valid_binary] in Hv. unfold bounded in Hv.
  apply andb_true_iff in Hv. destruct Hv as [Hc Hb].
  unfold canonical_mantissa in Hc. apply Z.eqb_eq in Hc.
  unfold binary_round_aux, shr_fexp.
  rewrite Zdigits2_shift_52.
  cbn [shr_record_of_loc].
  replace (fexp prec emax (Zdigits2 (Z.pos mx) + 52 + (-52 + ex)) - (-52 + ex))
    with 52.
  2:{ replace (Zdigits2 (Z.pos mx) + 52 + (-52 + ex))
        with (Z.pos (digits2_pos mx) + ex) by (cbn [Zdigits2]; lia).
      rewrite Hc. lia. }
  rewrite shr_52. cbn [shr_m loc_of_shr_record shr_r shr_s round_nearest_even].
  cbn [shr_record_of_loc].
  replace (fexp prec emax (Zdigits2 (Z.pos mx) + (-52 + ex + 52)) - (-52 + ex + 52))
    with 0.
  2:{ replace (Zdigits2 (Z.pos mx) + (-52 + ex + 52))
        with (Z.pos (digits2_pos mx) + ex) by (cbn [Zdigits2]; lia).
      rewrite Hc. lia. }
  cbn [shr shr_m].
  replace (-52 + ex + 52) with ex by lia.
  rewrite Hb. destruct sx, sy; reflexivity.
Qed.

Local Close Scope Z_scope.

Lemma mul_one_l (x : float) : (1 * x)%float = x.
Proof.
  apply Prim2SF_inj. rewrite mul_spec.
  change (Prim2SF 1) with (S754_finite false 4503599627370496 (-52)).
  apply (SFmul_unit_l false), Prim2SF_valid.
Qed.

Lemma mul_minus_one_l (x : float) : (-1 * x)%float = (- x)%float.
Proof.
  apply Prim2SF_inj. rewrite mul_spec, opp_spec.
  change (Prim2SF (-1)) with (S754_finite true 4503599627370496 (-52)).
  apply (SFmul_unit_l true), Prim2SF_valid.
Qed.

Lemma py_mul_one_l (v : scalar) : py_mul (PyFloat 1) v = v.
Proof. destruct v; cbn; now rewrite mul_one_l. Qed.

(** Running [gradients_of] on a session with an empty log: the operator,
    the seed, the one visit, and the look-ups, with the comparisons of
    ids settled by the facts about them in the context. *)
Ltac settle_ids :=
  repeat first
    [ rewrite String.eqb_refl
    | match goal with
      | H : String.eqb _ _ = false |- _ => rewrite H
      end ].

Ltac run_gradients_of run_op :=
  unfold gradients_of;
  rewrite (bind_Ok _ _ _ _ _ _ run_op), prepend_nil;
  unfold bind at 1; rewrite grad_dl_d_snapshot;
  cbn [Tape_list rev app for_each]; unfold visit, contributions, bind, print;
  cbn [grad_outputs outputs seed dict_get name id_counter];
  rewrite String.eqb_refl; cbn;
  repeat (progress settle_ids; cbn).

Lemma sin_op_Node np_sin a s :
  let x := mkVar (ufunc np_sin (value a)) (v_ (S (id_counter s))) in
  sin_op np_sin (Node a) s
  = Ok x {| id_counter := S (id_counter s);
            Tape_list := Tape_list s
                         ++ [mkTape [name a] [name x] (sin_backward a)] |} [].
Proof. reflexivity. Qed.

Lemma log_op_Node np_log a s :
  let x := mkVar (ufunc np_log (value a)) (v_ (S (id_counter s))) in
  log_op np_log (Node a) s
  = Ok x {| id_counter := S (id_counter s);
            Tape_list := Tape_list s
                         ++ [mkTape [name a] [name x] (log_backward a)] |} [].
Proof. reflexivity. Qed.

(** X7: the gradients of a single binary operator.  On an empty log, for
    tracked operands [a] and [b] with different names, neither named
    like the result about to be created, building [f = a + b], [a - b]
    or [a * b] and taking the gradient of [f] gives the entries
    [(1.0, 1.0)], [(1.0, -1.0)] and [(b.value, a.value)] for [(a, b)],
    whatever the values of the operands. *)
Theorem binary_operator_gradients :
  forall (np_cos : float -> float) (a b : Var) (c : nat),
    let s := {| id_counter := c; Tape_list := [] |} in
    name a <> name b ->
    name a <> v_ (S c) ->
    name b <> v_ (S c) ->
    (exists s' out,
       gradients_of np_cos (add_op (Node a) (Node b)) a b s
       = Ok (Some (PyFloat 1), Some (PyFloat 1)) s' out)
    /\ (exists s' out,
          gradients_of np_cos (sub_op (Node a) (Node b)) a b s
          = Ok (Some (PyFloat 1), Some (PyFloat (-1))) s' out)
    /\ (exists s' out,
          gradients_of np_cos (mul_op (Node a) (Node b)) a b s
          = Ok (Some (value b), Some (value a)) s' out).
Proof.
  intros np_cos a b c s Hab Ha Hb. subst s.
  apply String.eqb_neq in Ha, Hb.
  assert (Hba : String.eqb (name b) (name a) = false)
    by (apply String.eqb_neq; congruence).
  split; [|split].
  - run_gradients_of (add_op_Node a b {| id_counter := c; Tape_list := [] |}).
    do 2 eexists. reflexivity.
  - run_gradients_of (sub_op_Node a b {| id_counter := c; Tape_list := [] |}).
    do 2 eexists. reflexivity.
  - run_gradients_of (mul_op_Node a b {| id_counter := c; Tape_list := [] |}).
    change (match value b with
            | PyFloat y => PyFloat (1 * y)
            | NpFloat _ => NpFloat (1 * num (value b))
            end) with (py_mul (PyFloat 1) (value b)).
    change (match value a with
            | PyFloat y => PyFloat (1 * y)
            | NpFloat _ => NpFloat (1 * num (value a))
            end) with (py_mul (PyFloat 1) (value a)).
    rewrite !py_mul_one_l. do 2 eexists. reflexivity.
Qed.

(** X8: the gradients of a binary operator applied to one node twice,
    where the two contributions meet in the gradient map.  On an empty
    log, for a tracked [a] not named like the result about to be created,
    the entry of [a] in the gradient of [a + a] is 2.0, in that of
    [a - a] it is 0.0, and in that of [a * a] it is
    [a.value + a.value], whatever the value of [a]. *)
Theorem shared_operand_gradients :
  forall (np_cos : float -> float) (a : Var) (c : nat),
    let s := {| id_counter := c; Tape_list := [] |} in
    name a <> v_ (S c) ->
    (exists s' out,
       gradients_of np_cos (add_op (Node a) (Node a)) a a s
       = Ok (Some (PyFloat 2), Some (PyFloat 2)) s' out)
    /\ (exists s' out,
          gradients_of np_cos (sub_op (Node a) (Node a)) a a s
          = Ok (Some (PyFloat 0), Some (PyFloat 0)) s' out)
    /\ (exists s' out,
          gradients_of np_cos (mul_op (Node a) (Node a)) a a s
          = Ok (Some (py_add (value a) (value a)),
                Some (py_add (value a) (value a))) s' out).
Proof.
  intros np_cos a c s Ha. subst s. apply String.eqb_neq in Ha.
  split; [|split].
  - run_gradients_of (add_op_Node a a {| id_counter := c; Tape_list := [] |}).
    do 2 eexists. reflexivity.
  - run_gradients_of (sub_op_Node a a {| id_counter := c; Tape_list := [] |}).
    do 2 eexists. reflexivity.
  - run_gradients_of (mul_op_Node a a {| id_counter := c; Tape_list := [] |}).
    change (match value a with
            | PyFloat y => PyFloat (1 * y)
            | NpFloat _ => NpFloat (1 * num (value a))
            end) with (py_mul (PyFloat 1) (value a)).
    rewrite !py_mul_one_l. do 2 eexists. reflexivity.
Qed.

(** X9: the gradients of the unary operators.  On an empty log, for a
    tracked [a] not named like the result about to be created, the entry
    of [a] in the gradient of [sin(a)] is the backend's [cos(a.value)];
    in the gradient of [log(a)] it is [1 / a.value], except that for a
    Python float zero the forward call returns and the [grad] call
    raises [ZeroDivisionError], leaving the record of the logarithm on
    the log. *)
Theorem unary_operator_gradients :
  forall (np_sin np_cos np_log : float -> float) (a : Var) (c : nat),
    let s := {| id_counter := c; Tape_list := [] |} in
    name a <> v_ (S c) ->
    (exists s' out,
       gradients_of np_cos (sin_op np_sin (Node a)) a a s
       = Ok (Some (NpFloat (np_cos (num (value a)))),
             Some (NpFloat (np_cos (num (value a))))) s' out)
    /\ (forall q, py_inv (value a) = inr q ->
          exists s' out,
            gradients_of np_cos (log_op np_log (Node a)) a a s
            = Ok (Some q, Some q) s' out)
    /\ (forall f, value a = PyFloat f -> (f =? 0)%float = true ->
          gradients_of np_cos (log_op np_log (Node a)) a a s
          = Raise ZeroDivisionError
              {| id_counter := S (S c);
                 Tape_list := [mkTape [name a] [v_ (S c)] (log_backward a)] |}
              [print_tape (mkTape [name a] [v_ (S c)] (log_backward a))]).
Proof.
  intros np_sin np_cos np_log a c s Ha. subst s. apply String.eqb_neq in Ha.
  split; [|split].
  - run_gradients_of
      (sin_op_Node np_sin a {| id_counter := c; Tape_list := [] |}).
    rewrite mul_one_l. do 2 eexists. reflexivity.
  - intros q Hq.
    unfold gradients_of.
    rewrite (bind_Ok _ _ _ _ _ _
               (log_op_Node np_log a {| id_counter := c; Tape_list := [] |})),
      prepend_nil.
    unfold bind at 1. rewrite grad_dl_d_snapshot.
    cbn [Tape_list rev app for_each]. unfold visit, contributions, bind, print.
    cbn [grad_outputs outputs seed dict_get name id_counter].
    rewrite String.eqb_refl. cbn. rewrite Hq. cbn.
    repeat (progress settle_ids; cbn).
    change (match q with
            | PyFloat y => PyFloat (1 * y)
            | NpFloat _ => NpFloat (1 * num q)
            end) with (py_mul (PyFloat 1) q).
    rewrite py_mul_one_l. do 2 eexists. reflexivity.
  - intros f Hf Hz.
    unfold gradients_of.
    rewrite (bind_Ok _ _ _ _ _ _
               (log_op_Node np_log a {| id_counter := c; Tape_list := [] |})),
      prepend_nil.
    unfold bind at 1. rewrite grad_dl_d_snapshot.
    cbn [Tape_list rev app for_each]. unfold visit, contributions, bind, print.
    cbn [grad_outputs outputs seed dict_get name id_counter].
    rewrite String.eqb_refl. cbn. rewrite Hf. cbn. rewrite Hz. reflexivity.
Qed.

(** X10: the driver.  For literals [x] and [y] in place of [2.] and [5.],
    with [x] not a zero, the second block of the driver returns [None]
    having printed the five records of the expression and seven gradient
    lines, among them [df/dx = y + 1 / x] for [v_1] and
    [df/dy = -cos(y) + x] for [v_2]; it leaves 15 records on the log and
    the counter at 24.  With [x] a zero the logarithm returns and the
    [grad] call raises [ZeroDivisionError]. *)
Theorem main_gradients :
  forall (np_sin np_cos np_log : float -> float) (vx vy : float),
    ((vx =? 0)%float = false ->
     exists s out,
       main_at np_sin np_cos np_log vx vy fresh_session = Ok PyNone s out
       /\ printed_gradients out
          = [("v_7", PyFloat 1); ("v_5", PyFloat 1); ("v_6", PyFloat (-1));
             ("v_2", NpFloat (- np_cos vy + vx)); ("v_3", PyFloat 1);
             ("v_4", PyFloat 1); ("v_1", PyFloat (vy + 1 / vx))]%string%float
       /\ List.length (visited out) = 5
       /\ List.length (Tape_list s) = 15
       /\ id_counter s = 24)
    /\ ((vx =? 0)%float = true ->
        exists s out,
          main_at np_sin np_cos np_log vx vy fresh_session
          = Raise ZeroDivisionError s out).
Proof.
  intros np_sin np_cos np_log vx vy. split; intros Hz.
  - destruct (main_at np_sin np_cos np_log vx vy fresh_session)
      as [v s out | e s out] eqn:E; revert E; cbv; rewrite Hz;
      [|discriminate].
    intros [= <- <- <-]. do 2 eexists. split; [reflexivity|].
    cbn. rewrite !mul_one_l, mul_minus_one_l. repeat split.
  - destruct (main_at np_sin np_cos np_log vx vy fresh_session)
      as [v s out | e s out] eqn:E; revert E; cbv; rewrite Hz;
      [discriminate|].
    intros [= <- <- <-]. do 2 eexists. reflexivity.
Qed.

(** ** The experiment of the driver *)

Lemma experiment_loop_prefix n : forall lst extra out,
  n <= List.length lst ->
  experiment_loop n (lst ++ extra) out
  = (lst ++ extra ++ repeat 99%Z (count_occ Z.eq_dec (firstn n lst) 2%Z),
     out ++ rev (firstn n lst)).
Proof.
  induction n as [|n IH]; intros lst extra out Hn.
  - cbn. now rewrite !app_nil_r.
  - cbn [experiment_loop].
    destruct (nth_error lst n) as [x|] eqn:Ex.
    2:{ apply nth_error_None in Ex. lia. }
    rewrite nth_error_app1, Ex by lia.
    rewrite (firstn_snoc _ _ _ Ex), rev_app_distr, count_occ_app. cbn [rev app].
    destruct (Z.eqb_spec x 2) as [->|Hx].
    + rewrite <- app_assoc, IH by lia. cbn [count_occ].
      destruct (Z.eq_dec 2 2) as [_|]; [|easy].
      rewrite <- !app_assoc. cbn [app].
      replace (count_occ Z.eq_dec (firstn n lst) 2%Z + 1)
        with (S (count_occ Z.eq_dec (firstn n lst) 2%Z)) by lia.
      reflexivity.
    + rewrite IH by lia. cbn [count_occ].
      destruct (Z.eq_dec x 2) as [|_]; [easy|].
      rewrite Nat.add_0_r, <- !app_assoc. reflexivity.
Qed.

(** X11: the experiment on lists at the head of the driver, for any
    starting list.  The loop prints the elements the list had when the
    loop started, last one first; the 99s appended on the way are never
    printed, and the list printed at the end is the starting list
    followed by one 99 for every 2 in it. *)
Theorem experiment_visits_the_original_list : forall lst : list Z,
  experiment lst
  = (lst ++ repeat 99%Z (count_occ Z.eq_dec lst 2%Z), rev lst).
Proof.
  intros lst. unfold experiment.
  rewrite <- (app_nil_r lst) at 2.
  rewrite experiment_loop_prefix by lia.
  now rewrite firstn_all.
Qed.

(** ** Side effects of a failed call, and names chosen by the user *)

(** X12: no [grad] call is free of effects on the session.  Whether it
    returns or raises, it has drawn at least the identity of its seed:
    the counter after the call is strictly above the counter before. *)
Theorem grad_always_draws_an_identity :
  forall (np_cos : float -> float) (l : Var) (results : list Var) (s : session),
    id_counter s < id_counter (final (grad np_cos l results s)).
Proof.
  intros np_cos l results s. rewrite grad_run, grad_dl_d_snapshot.
  pose proof (only_appends_for_each np_cos (rev (Tape_list s)) (seed l s)
                (after_seed s)) as [H _].
  destruct (for_each np_cos (rev (Tape_list s)) (seed l s) (after_seed s));
    cbn in *; lia.
Qed.

Lemma v_not_empty k : String.eqb (v_ k) "" = false.
Proof. reflexivity. Qed.

(** X13: names chosen by the user.  A variable created with a non-empty
    name keeps that name and draws no identity; the session is left as it
    was.  Nothing keeps such a name apart from the generated ones: a
    variable named like the next identity of the counter and the
    variable created next without a name are namesakes. *)
Theorem user_names_are_not_reserved :
  forall (v w : scalar) (n : string) (s : session),
    (n <> ""%string -> Variable_init v (Some n) s = Ok (mkVar v n) s [])
    /\ (x <- Variable_init v (Some (v_ (S (id_counter s))));;
        y <- Variable_init w None;;
        ret (name x, name y)) s
       = Ok (v_ (S (id_counter s)), v_ (S (id_counter s)))
            {| id_counter := S (id_counter s); Tape_list := Tape_list s |} [].
Proof.
  intros v w n s. split.
  - intros Hn. unfold Variable_init.
    apply String.eqb_neq in Hn. now rewrite Hn.
  - unfold bind, Variable_init. rewrite v_not_empty. cbn.
    now destruct s.
Qed.

(** ** Instances *)

Lemma numbered_diamond_session : numbered diamond_session.
Proof. exists 2. repeat split; cbn; lia. Qed.

Lemma numbered_log_is_kept_witness :
  numbered diamond_session
  /\ numbered (final (grad not_called diamond_z [diamond_x] diamond_session)).
Proof.
  split; [exact numbered_diamond_session|].
  apply (numbered_log_is_kept not_called not_called not_called diamond_session
           numbered_diamond_session).
Defined.

Lemma grad_needs_the_last_node_witness :
  Forall (fun o => o = name diamond_z) ["v_2"%string].
Proof.
  apply (proj1 (grad_needs_the_last_node not_called diamond_z [diamond_x])
           diamond_session []
           (mkTape ["v_1"; "v_1"]%string ["v_2"%string]
                   (add_backward diamond_x diamond_x))
           PyNone
           (final (grad not_called diamond_z [diamond_x] diamond_session))
           (printed (grad not_called diamond_z [diamond_x] diamond_session)));
    [reflexivity | vm_compute; reflexivity].
Defined.


Lemma grad_raises_at_a_record_witness :
  exists t, In t (Tape_list dead_session) /\
    ((exists x, In x (outputs t) /\ KeyError "v_5" = KeyError x)
     \/ (KeyError "v_5" = ValueError /\ List.length (outputs t) <> 1)
     \/ (KeyError "v_5" = ZeroDivisionError
         /\ exists a f, propagate t = log_backward a /\ value a = PyFloat f
                        /\ (f =? 0)%float = true)).
Proof.
  apply (grad_raises_at_a_record not_called dead_y [dead_x] dead_session
           (KeyError "v_5") (after_seed dead_session) [print_tape record_w]).
  reflexivity.
Defined.

Lemma grad_prints_each_id_once_witness :
  exists dl_d rest,
    printed (grad not_called diamond_z [diamond_x] diamond_session)
    = map print_tape (rev (Tape_list diamond_session))
      ++ grad_lines diamond_z dl_d
    /\ map fst dl_d = name diamond_z :: rest
    /\ NoDup (name diamond_z :: rest)
    /\ (Forall well_formed (Tape_list diamond_session) ->
        forall n, In n (name diamond_z :: rest)
                  <-> n = name diamond_z
                      \/ In n (List.concat (map inputs (Tape_list diamond_session)))).
Proof.
  apply (grad_prints_each_id_once not_called diamond_z [diamond_x]
           diamond_session PyNone
           (final (grad not_called diamond_z [diamond_x] diamond_session))).
  vm_compute. reflexivity.
Defined.

Lemma binary_operator_gradients_witness :
  exists s' out,
    gradients_of not_called
      (mul_op (Node (mkVar (PyFloat 3) "v_1")) (Node (mkVar (PyFloat 4) "v_2")))
      (mkVar (PyFloat 3) "v_1") (mkVar (PyFloat 4) "v_2")
      {| id_counter := 2; Tape_list := [] |}
    = Ok (Some (PyFloat 4), Some (PyFloat 3)) s' out.
Proof.
  apply (binary_operator_gradients not_called
           (mkVar (PyFloat 3) "v_1") (mkVar (PyFloat 4) "v_2") 2);
    discriminate.
Defined.

Lemma shared_operand_gradients_witness :
  exists s' out,
    gradients_of not_called
      (mul_op (Node (mkVar (PyFloat 3) "v_1")) (Node (mkVar (PyFloat 3) "v_1")))
      (mkVar (PyFloat 3) "v_1") (mkVar (PyFloat 3) "v_1")
      {| id_counter := 1; Tape_list := [] |}
    = Ok (Some (py_add (PyFloat 3) (PyFloat 3)),
          Some (py_add (PyFloat 3) (PyFloat 3))) s' out.
Proof.
  apply (shared_operand_gradients not_called (mkVar (PyFloat 3) "v_1") 1).
  discriminate.
Defined.

Lemma unary_operator_gradients_witness :
  (exists s' out,
     gradients_of not_called
       (log_op not_called (Node (mkVar (PyFloat 2) "v_1")))
       (mkVar (PyFloat 2) "v_1") (mkVar (PyFloat 2) "v_1")
       {| id_counter := 1; Tape_list := [] |}
     = Ok (Some (PyFloat 0.5), Some (PyFloat 0.5)) s' out)
  /\ gradients_of not_called
       (log_op not_called (Node (mkVar (PyFloat 0) "v_1")))
       (mkVar (PyFloat 0) "v_1") (mkVar (PyFloat 0) "v_1")
       {| id_counter := 1; Tape_list := [] |}
     = Raise ZeroDivisionError
         {| id_counter := 3;
            Tape_list := [mkTape ["v_1"%string] [v_ 2]
                                 (log_backward (mkVar (PyFloat 0) "v_1"))] |}
         [print_tape (mkTape ["v_1"%string] [v_ 2]
                             (log_backward (mkVar (PyFloat 0) "v_1")))].
Proof.
  split.
  - apply (proj1 (proj2 (unary_operator_gradients not_called not_called
                           not_called (mkVar (PyFloat 2) "v_1") 1
                           ltac:(discriminate)))
             (PyFloat 0.5)).
    reflexivity.
  - apply (proj2 (proj2 (unary_operator_gradients not_called not_called
                           not_called (mkVar (PyFloat 0) "v_1") 1
                           ltac:(discriminate)))
             0%float); reflexivity.
Defined.

Lemma main_gradients_witness :
  exists s out,
    main not_called not_called not_called fresh_session = Ok PyNone s out
    /\ printed_gradients out
       = [("v_7", PyFloat 1); ("v_5", PyFloat 1); ("v_6", PyFloat (-1));
          ("v_2", NpFloat (- not_called 5 + 2)); ("v_3", PyFloat 1);
          ("v_4", PyFloat 1); ("v_1", PyFloat (5 + 1 / 2))]%string%float
    /\ List.length (visited out) = 5
    /\ List.length (Tape_list s) = 15
    /\ id_counter s = 24.
Proof.
  apply (proj1 (main_gradients not_called not_called not_called 2 5)).
  reflexivity.
Defined.

Lemma user_names_are_not_reserved_witness :
  Variable_init (PyFloat 1) (Some "x"%string) fresh_session
  = Ok (mkVar (PyFloat 1) "x") fresh_session [].
Proof.
  apply (proj1 (user_names_are_not_reserved (PyFloat 1) (PyFloat 1) "x"
                  fresh_session)).
  discriminate.
Defined.
